(** * Gaussian estimators and path dispatch of frechet_music_distance

    A shallow embedding of

    - [gaussian_estimators/max_likelihood_estimator.py],
    - [gaussian_estimators/leodit_wolf_estimator.py],
    - [models/clamp/clamp_extractor.py] and
      [models/clamp2/clamp2_extractor.py] (the path dispatch only),

    together with the parts of NumPy ([np.mean], [np.cov]) and of
    scikit-learn ([LedoitWolf]) that the two estimators call.

    Numbers.  A NumPy [float64] is modelled by [float]: an exact rational
    ([Fin]) or one of the three IEEE special values.  Rounding and overflow
    of finite values are idealised away and zero carries no sign; the
    special values follow IEEE 754 (a division by zero gives an infinity,
    [0 * inf] and [inf - inf] give [NaN], every comparison with [NaN] is
    false). *)

From Stdlib Require Import String QArith Qcanon ZArith List Bool Arith Lia Lqa.
Import ListNotations.

Set Implicit Arguments.
Local Open Scope nat_scope.
Local Open Scope list_scope.

(* ================================================================= *)
(** * Part I: definitions *)
(* ================================================================= *)

(* ----------------------------------------------------------------- *)
(** ** Sums *)

Section Big.

Variable A : Type.
Variable op : A -> A -> A.
Variable unit : A.

(** [a1 + (a2 + (... + 0))] *)
Definition big (l : list A) : A := fold_right op unit l.

(** The sum of [f i] for [lo <= i < lo + len]. *)
Definition big_range (lo len : nat) (f : nat -> A) : A :=
  big (map f (seq lo len)).

End Big.

(* ----------------------------------------------------------------- *)
(** ** Floating-point values *)

Module Float.

Inductive float : Type :=
| Fin (q : Qc)
| PInf
| NInf
| NaN.

(** The rational of a natural number. *)
Definition qnat (n : nat) : Qc := Q2Qc (inject_Z (Z.of_nat n)).

Definition of_Z (z : Z) : float := Fin (Q2Qc (inject_Z z)).
Definition of_nat (n : nat) : float := of_Z (Z.of_nat n).

Definition zero : float := Fin 0%Qc.
Definition one : float := Fin 1%Qc.
Definition two : float := of_Z 2.

(** Sign of a value as a [comparison] with zero; [Eq] also stands for "no
    sign" ([NaN]). *)
Definition sgn (a : float) : comparison :=
  match a with
  | Fin q => (q ?= 0)%Qc
  | PInf => Gt
  | NInf => Lt
  | NaN => Eq
  end.

Definition sgn_mul (c d : comparison) : comparison :=
  match c with
  | Eq => Eq
  | Gt => d
  | Lt => CompOpp d
  end.

(** The infinity of a given sign; a zero sign gives [NaN] (this is
    [0 * inf] and [0 / 0]). *)
Definition inf_of (c : comparison) : float :=
  match c with
  | Gt => PInf
  | Lt => NInf
  | Eq => NaN
  end.

Definition is_finite (a : float) : bool :=
  match a with Fin _ => true | _ => false end.

Definition fneg (a : float) : float :=
  match a with
  | Fin q => Fin (- q)%Qc
  | PInf => NInf
  | NInf => PInf
  | NaN => NaN
  end.

Definition fadd (a b : float) : float :=
  match a, b with
  | NaN, _ | _, NaN => NaN
  | Fin x, Fin y => Fin (x + y)%Qc
  | PInf, NInf | NInf, PInf => NaN
  | PInf, _ | _, PInf => PInf
  | NInf, _ | _, NInf => NInf
  end.

Definition fsub (a b : float) : float := fadd a (fneg b).

Definition fmul (a b : float) : float :=
  match a, b with
  | NaN, _ | _, NaN => NaN
  | Fin x, Fin y => Fin (x * y)%Qc
  | _, _ => inf_of (sgn_mul (sgn a) (sgn b))
  end.

(** Division.  A finite value divided by zero is the infinity of its sign
    ([0 / 0] is [NaN]); the zero divisor counts as positive. *)
Definition fdiv (a b : float) : float :=
  match a, b with
  | NaN, _ | _, NaN => NaN
  | Fin x, Fin y =>
      if Qc_eq_bool y 0%Qc then inf_of (sgn a) else Fin (x / y)%Qc
  | Fin _, _ => zero
  | _, Fin y =>
      inf_of (sgn_mul (sgn a) (if Qc_eq_bool y 0%Qc then Gt else sgn b))
  | _, _ => NaN
  end.

(** IEEE comparisons: false as soon as one side is [NaN]. *)
Definition cmp (a b : float) : option comparison :=
  match a, b with
  | NaN, _ | _, NaN => None
  | Fin x, Fin y => Some (x ?= y)%Qc
  | PInf, PInf | NInf, NInf => Some Eq
  | PInf, _ | _, NInf => Some Gt
  | NInf, _ | _, PInf => Some Lt
  end.

Definition feq (a b : float) : bool :=
  match cmp a b with Some Eq => true | _ => false end.
Definition flt (a b : float) : bool :=
  match cmp a b with Some Lt => true | _ => false end.

(** Python's builtin [min(a, b)]: the first argument unless the second is
    strictly smaller. *)
Definition py_min (a b : float) : float := if flt b a then b else a.

(** Structural (bit-for-bit) identity of two values, unlike [feq] true on
    two [NaN]s. *)
Definition same (a b : float) : bool :=
  match a, b with
  | Fin x, Fin y => Qc_eq_bool x y
  | PInf, PInf | NInf, NInf | NaN, NaN => true
  | _, _ => false
  end.

(** [a + b + ...], NumPy's [add.reduce]; the empty sum is [0]. *)
Definition fsum (l : list float) : float := big fadd zero l.

(** The sum of [f i] for [lo <= i < lo + len]. *)
Definition sum_range (lo len : nat) (f : nat -> float) : float :=
  big_range fadd zero lo len f.

End Float.
Import Float.

(* ----------------------------------------------------------------- *)
(** ** NumPy arrays and the NumPy functions the estimators call *)

Module Numpy.

(** A 2-D [ndarray]: its shape and its rows.  The shape is kept beside the
    data because NumPy distinguishes the empty shapes [(0, D)] and
    [(n, 0)]. *)
Record matrix : Type := Matrix {
  shape0 : nat;
  shape1 : nat;
  data : list (list float)
}.

(** What the functions below can return: a 0-d, 1-d or 2-d array. *)
Inductive ndarray : Type :=
| Arr0 (x : float)
| Arr1 (v : list float)
| Arr2 (m : matrix).

Definition well_formedb (m : matrix) : bool :=
  (length (data m) =? shape0 m)
  && forallb (fun r => length r =? shape1 m) (data m).

Definition well_formed (m : matrix) : Prop := well_formedb m = true.

(** [m[i, j]]; every index the code below reads is within the shape. *)
Definition getitem (m : matrix) (i j : nat) : float :=
  nth j (nth i (data m) []) NaN.

Definition tabulate (n k : nat) (f : nat -> nat -> float) : matrix :=
  Matrix n k (map (fun i => map (f i) (seq 0 k)) (seq 0 n)).

(** [m.T] *)
Definition transpose (m : matrix) : matrix :=
  tabulate (shape1 m) (shape0 m) (fun i j => getitem m j i).

Inductive axis : Type := axis0 | axis1.

(** [np.sum(m, axis)] *)
Definition np_sum_axis (m : matrix) (ax : axis) : list float :=
  match ax with
  | axis0 =>
      map (fun j => sum_range 0 (shape0 m) (fun i => getitem m i j))
          (seq 0 (shape1 m))
  | axis1 =>
      map (fun i => sum_range 0 (shape1 m) (fun j => getitem m i j))
          (seq 0 (shape0 m))
  end.

(** [np.mean(m, axis)]: the sum along the axis over the number of items
    summed (so [0 / 0 = NaN] along an empty axis). *)
Definition np_mean (m : matrix) (ax : axis) : list float :=
  let count := match ax with axis0 => shape0 m | axis1 => shape1 m end in
  map (fun s => fdiv s (of_nat count)) (np_sum_axis m ax).

(** [np.sum(m)] and [m.mean()] over all entries *)
Definition np_sum (m : matrix) : float :=
  sum_range 0 (shape0 m) (fun i =>
    sum_range 0 (shape1 m) (fun j => getitem m i j)).

Definition np_mean_all (m : matrix) : float :=
  fdiv (np_sum m) (of_nat (shape0 m * shape1 m)).

(** [np.trace(m)] *)
Definition np_trace (m : matrix) : float :=
  sum_range 0 (Nat.min (shape0 m) (shape1 m)) (fun i => getitem m i i).

(** [m - v[:, None]]: [v] broadcast along the columns *)
Definition sub_column (m : matrix) (v : list float) : matrix :=
  tabulate (shape0 m) (shape1 m)
    (fun i j => fsub (getitem m i j) (nth i v NaN)).

(** [m - v]: [v] broadcast along the rows *)
Definition sub_row (m : matrix) (v : list float) : matrix :=
  tabulate (shape0 m) (shape1 m)
    (fun i j => fsub (getitem m i j) (nth j v NaN)).

(** [np.dot(a, b)] *)
Definition dot (a b : matrix) : matrix :=
  tabulate (shape0 a) (shape1 b)
    (fun i j =>
       sum_range 0 (shape1 a) (fun k => fmul (getitem a i k) (getitem b k j))).

(** [m * k] and [m / k] for a scalar [k]; [m ** 2] *)
Definition scale (m : matrix) (k : float) : matrix :=
  tabulate (shape0 m) (shape1 m) (fun i j => fmul (getitem m i j) k).

Definition divide (m : matrix) (k : float) : matrix :=
  tabulate (shape0 m) (shape1 m) (fun i j => fdiv (getitem m i j) k).

Definition square (m : matrix) : matrix :=
  tabulate (shape0 m) (shape1 m)
    (fun i j => fmul (getitem m i j) (getitem m i j)).

(** [m[start:stop]] and [m[:, start:stop]] with Python's clipping of the
    bounds to the length. *)
Definition slice_rows (m : matrix) (start stop : nat) : matrix :=
  let a := Nat.min start (shape0 m) in
  let b := Nat.min stop (shape0 m) in
  tabulate (b - a) (shape1 m) (fun i j => getitem m (a + i) j).

Definition slice_cols (m : matrix) (start stop : nat) : matrix :=
  let a := Nat.min start (shape1 m) in
  let b := Nat.min stop (shape1 m) in
  tabulate (shape0 m) (b - a) (fun i j => getitem m i (a + j)).

(** [m.squeeze()]: axes of length one are dropped. *)
Definition squeeze (m : matrix) : ndarray :=
  match shape0 m, shape1 m with
  | 1, 1 => Arr0 (getitem m 0 0)
  | 1, k => Arr1 (map (fun j => getitem m 0 j) (seq 0 k))
  | n, 1 => Arr1 (map (fun i => getitem m i 0) (seq 0 n))
  | _, _ => Arr2 m
  end.

(** [np.cov] decides whether to transpose a [rowvar=False] input by a test
    that changed between releases:
    - up to NumPy 2.1, [if not rowvar and X.shape[0] != 1: X = X.T];
    - from NumPy 2.2, [if not rowvar and m.ndim != 1: X = X.T]
    (a 2-D input always has [ndim = 2]). *)
Inductive release : Type := upto_2_1 | from_2_2.

Definition transposes (r : release) (m : matrix) : bool :=
  match r with
  | upto_2_1 => negb (shape0 m =? 1)
  | from_2_2 => true
  end.

(** [np.cov(m, rowvar=rowvar)] with every other argument at its default
    ([y], [fweights], [aweights] absent, [bias=False], [ddof=None], so that
    [ddof = 1]):
<<
    X = array(m, ndmin=2, dtype=dtype)
    if not rowvar and ...: X = X.T
    if X.shape[0] == 0: return np.array([]).reshape(0, 0)
    avg, w_sum = average(X, axis=1, weights=None, returned=True)
    fact = X.shape[1] - ddof
    if fact <= 0: warnings.warn(...); fact = 0.0
    X -= avg[:, None]
    X_T = X.T
    c = dot(X, X_T.conj())
    c *= np.true_divide(1, fact)
    return c.squeeze()
>>
    (conjugation is the identity on reals; the warning is not an error). *)
Definition np_cov (r : release) (m : matrix) (rowvar : bool) : ndarray :=
  let X := if negb rowvar && transposes r m then transpose m else m in
  if shape0 X =? 0 then Arr2 (Matrix 0 0 [])
  else
    let ddof := 1%Z in
    let avg := np_mean X axis1 in
    let fact := (Z.of_nat (shape1 X) - ddof)%Z in
    let fact := if (fact <=? 0)%Z then zero else of_Z fact in
    let X := sub_column X avg in
    let X_T := transpose X in
    let c := dot X X_T in
    let c := scale c (fdiv one fact) in
    squeeze c.

(** Identity of arrays as data (shape and every entry, [NaN] included). *)
Definition same_vector (u v : list float) : bool :=
  (length u =? length v)
  && forallb (fun p => same (fst p) (snd p)) (combine u v).

Definition same_matrix (a b : matrix) : bool :=
  (shape0 a =? shape0 b) && (shape1 a =? shape1 b)
  && (length (data a) =? length (data b))
  && forallb (fun p => same_vector (fst p) (snd p))
       (combine (data a) (data b)).

Definition same_array (a b : ndarray) : bool :=
  match a, b with
  | Arr0 x, Arr0 y => same x y
  | Arr1 u, Arr1 v => same_vector u v
  | Arr2 m, Arr2 n => same_matrix m n
  | _, _ => false
  end.

(** [np.isfinite(m).all()] *)
Definition all_finite (m : matrix) : bool :=
  forallb (forallb is_finite) (data m).

End Numpy.
Import Numpy.

(* ----------------------------------------------------------------- *)
(** ** Exceptions and stateful computations *)

(** [ValueError], its subclass [InvalidParameterError] and
    [AttributeError] are what the modelled Python code can raise.
    [InvalidInputError] is the error the specification names; no statement
    of the modelled code constructs it. *)
Inductive exception : Type :=
| ValueError (msg : string)
| InvalidParameterError (msg : string)
| AttributeError (msg : string)
| InvalidInputError.

(** [isinstance(e, ValueError)] *)
Definition is_value_error (e : exception) : bool :=
  match e with
  | ValueError _ | InvalidParameterError _ => true
  | _ => false
  end.

Inductive result (A : Type) : Type :=
| Ok (a : A)
| Raise (e : exception).
Arguments Ok {A} a.
Arguments Raise {A} e.

Definition is_ok {A} (r : result A) : bool :=
  match r with Ok _ => true | Raise _ => false end.

Definition bind_result {A B} (r : result A) (k : A -> result B) : result B :=
  match r with
  | Ok a => k a
  | Raise e => Raise e
  end.

(** A method of an object with attributes [S]: it returns or raises, and
    leaves the object in a new state either way. *)
Definition method (S A : Type) : Type := S -> result A * S.

Definition ret {S A} (a : A) : method S A := fun s => (Ok a, s).
Definition raise {S A} (e : exception) : method S A := fun s => (Raise e, s).
Definition bind {S A B} (c : method S A) (k : A -> method S B) : method S B :=
  fun s =>
    match c s with
    | (Ok a, s') => k a s'
    | (Raise e, s') => (Raise e, s')
    end.
Definition get_self {S} : method S S := fun s => (Ok s, s).
Definition modify {S} (f : S -> S) : method S unit := fun s => (Ok tt, f s).
Definition lift {S A} (r : result A) : method S A := fun s => (r, s).

Declare Scope method_scope.
Delimit Scope method_scope with method.
Notation "x <- c ;; k" := (bind c (fun x => k))
  (at level 61, c at next level, right associativity) : method_scope.
Notation "c ;; k" := (bind c (fun _ => k))
  (at level 61, right associativity) : method_scope.

Declare Scope result_scope.
Delimit Scope result_scope with result.
Notation "x <- c ;; k" := (bind_result c (fun x => k))
  (at level 61, c at next level, right associativity) : result_scope.

(** [for i in range(n): s = body(i, s)] *)
Definition for_range {S} (n : nat) (body : nat -> S -> S) (s : S) : S :=
  fold_left (fun acc i => body i acc) (seq 0 n) s.

(* ----------------------------------------------------------------- *)
(** ** scikit-learn: [sklearn.covariance.LedoitWolf] *)

Module Sklearn.

(** The estimator object: its constructor parameters and the attributes
    [fit] stores.  [precision_] (the pseudo-inverse [fit] also stores when
    [store_precision] is set) is left out: nothing modelled here reads
    it. *)
Record LedoitWolf : Type := mkLedoitWolf {
  store_precision : bool;
  assume_centered : bool;
  block_size : Z;
  n_features_in_ : option nat;
  location_ : option (list float);
  shrinkage_ : option float;
  covariance_ : option matrix
}.

(** [LedoitWolf(assume_centered=..., block_size=...)] *)
Definition LedoitWolf_init (assume_centered : bool) (block_size : Z)
  : LedoitWolf :=
  {| store_precision := true;
     assume_centered := assume_centered;
     block_size := block_size;
     n_features_in_ := None;
     location_ := None;
     shrinkage_ := None;
     covariance_ := None |}.

(** [check_array(X, ensure_all_finite=...)] on a 2-D numeric array, with
    [ensure_min_samples = ensure_min_features = 1]. *)
Definition check_array (X : matrix) (ensure_all_finite : bool)
  : result matrix :=
  if ensure_all_finite && negb (all_finite X) then
    Raise (ValueError "Input contains NaN or infinity.")
  else if shape0 X <? 1 then
    Raise (ValueError "Found array with 0 sample(s) while a minimum of 1 is required.")
  else if shape1 X <? 1 then
    Raise (ValueError "Found array with 0 feature(s) while a minimum of 1 is required.")
  else Ok X.

(** [empirical_covariance(X, assume_centered=True)]:
    [np.dot(X.T, X) / X.shape[0]]. *)
Definition empirical_covariance (X : matrix) : result matrix :=
  (X <- check_array X false ;;
   Ok (divide (dot (transpose X) X) (of_nat (shape0 X))))%result.

(** The two accumulators of [ledoit_wolf_shrinkage]; [lo, hi] are slice
    bounds, [hi = None] for an open slice [lo:]. *)
Definition stop_of (hi : option nat) (len : nat) : nat :=
  match hi with Some h => h | None => len end.

Definition beta_block (X2 : matrix) (rows cols : nat * option nat) : float :=
  let X2T := transpose X2 in
  np_sum (dot (slice_rows X2T (fst rows) (stop_of (snd rows) (shape0 X2T)))
              (slice_cols X2 (fst cols) (stop_of (snd cols) (shape1 X2)))).

Definition delta_block (X : matrix) (rows cols : nat * option nat) : float :=
  let XT := transpose X in
  np_sum (square
            (dot (slice_rows XT (fst rows) (stop_of (snd rows) (shape0 XT)))
                 (slice_cols X (fst cols) (stop_of (snd cols) (shape1 X))))).

(** The two loops of [ledoit_wolf_shrinkage] over the blocks of columns:
<<
    for i in range(n_splits):
        for j in range(n_splits):
            rows = slice(block_size * i, block_size * (i + 1))
            cols = slice(block_size * j, block_size * (j + 1))
            beta_ += np.sum(np.dot(X2.T[rows], X2[:, cols]))
            delta_ += np.sum(np.dot(X.T[rows], X[:, cols]) ** 2)
        rows = slice(block_size * i, block_size * (i + 1))
        beta_ += np.sum(np.dot(X2.T[rows], X2[:, block_size * n_splits :]))
        delta_ += np.sum(np.dot(X.T[rows], X[:, block_size * n_splits :]) ** 2)
    for j in range(n_splits):
        cols = slice(block_size * j, block_size * (j + 1))
        beta_ += np.sum(np.dot(X2.T[block_size * n_splits :], X2[:, cols]))
        delta_ += np.sum(np.dot(X.T[block_size * n_splits :], X[:, cols]) ** 2)
>>
    from [beta_ = delta_ = 0.0]; the result is [(beta_, delta_)]. *)
Definition blocked_sums (X X2 : matrix) (bs n_splits : nat) : float * float :=
  let beta_ := zero in
  let delta_ := zero in
  let tail := (bs * n_splits, None) in
  let '(beta_, delta_) :=
    for_range n_splits
      (fun i '(beta_, delta_) =>
         let '(beta_, delta_) :=
           for_range n_splits
             (fun j '(beta_, delta_) =>
                let rows := (bs * i, Some (bs * (i + 1))) in
                let cols := (bs * j, Some (bs * (j + 1))) in
                (fadd beta_ (beta_block X2 rows cols),
                 fadd delta_ (delta_block X rows cols)))
             (beta_, delta_) in
         let rows := (bs * i, Some (bs * (i + 1))) in
         (fadd beta_ (beta_block X2 rows tail),
          fadd delta_ (delta_block X rows tail)))
      (beta_, delta_) in
  for_range n_splits
    (fun j '(beta_, delta_) =>
       let cols := (bs * j, Some (bs * (j + 1))) in
       (fadd beta_ (beta_block X2 tail cols),
        fadd delta_ (delta_block X tail cols)))
    (beta_, delta_).

(** [ledoit_wolf_shrinkage(X, assume_centered=True, block_size=...)]
<<
    X = check_array(X)
    if len(X.shape) == 2 and X.shape[1] == 1: return 0.0
    n_samples, n_features = X.shape
    n_splits = int(n_features / block_size)
    X2 = X**2
    emp_cov_trace = np.sum(X2, axis=0) / n_samples
    mu = np.sum(emp_cov_trace) / n_features
    beta_ = 0.0
    delta_ = 0.0
    (the two loops)
    delta_ += np.sum(
        np.dot(X.T[block_size * n_splits :], X[:, block_size * n_splits :]) ** 2)
    delta_ /= n_samples**2
    beta_ += np.sum(
        np.dot(X2.T[block_size * n_splits :], X2[:, block_size * n_splits :]))
    beta = 1.0 / (n_features * n_samples) * (beta_ / n_samples - delta_)
    delta = delta_ - 2.0 * mu * emp_cov_trace.sum() + n_features * mu**2
    delta /= n_features
    beta = min(beta, delta)
    shrinkage = 0 if beta == 0 else beta / delta
    return shrinkage
>>
*)
Definition ledoit_wolf_shrinkage (X : matrix) (block_size : Z)
  : result float :=
  (X <- check_array X true ;;
   if shape1 X =? 1 then Ok zero
   else
     let n_samples := shape0 X in
     let n_features := shape1 X in
     let bs := Z.to_nat block_size in
     let n_splits := Z.to_nat (Z.quot (Z.of_nat n_features) block_size) in
     let X2 := square X in
     let emp_cov_trace :=
       map (fun s => fdiv s (of_nat n_samples)) (np_sum_axis X2 axis0) in
     let mu := fdiv (fsum emp_cov_trace) (of_nat n_features) in
     let tail := (bs * n_splits, None) in
     let '(beta_, delta_) := blocked_sums X X2 bs n_splits in
     let delta_ := fadd delta_ (delta_block X tail tail) in
     let delta_ := fdiv delta_ (fmul (of_nat n_samples) (of_nat n_samples)) in
     let beta_ := fadd beta_ (beta_block X2 tail tail) in
     let beta :=
       fmul (fdiv one (of_nat (n_features * n_samples)))
            (fsub (fdiv beta_ (of_nat n_samples)) delta_) in
     let delta :=
       fadd (fsub delta_ (fmul (fmul two mu) (fsum emp_cov_trace)))
            (fmul (of_nat n_features) (fmul mu mu)) in
     let delta := fdiv delta (of_nat n_features) in
     let beta := py_min beta delta in
     let shrinkage := if feq beta zero then zero else fdiv beta delta in
     Ok shrinkage)%result.

(** [shrunk_cov.flat[::n_features + 1] += v]: [v] is added to the
    diagonal. *)
Definition add_to_diagonal (m : matrix) (v : float) : matrix :=
  tabulate (shape0 m) (shape1 m)
    (fun i j => if i =? j then fadd (getitem m i j) v else getitem m i j).

(** [_ledoit_wolf(X, assume_centered=True, block_size=...)] *)
Definition ledoit_wolf (X : matrix) (block_size : Z)
  : result (matrix * float) :=
  if shape1 X =? 1 then
    Ok (Matrix 1 1 [[np_mean_all (square X)]], zero)
  else
    (let n_features := shape1 X in
     shrinkage <- ledoit_wolf_shrinkage X block_size ;;
     emp_cov <- empirical_covariance X ;;
     let mu := fdiv (np_trace emp_cov) (of_nat n_features) in
     let shrunk_cov := scale emp_cov (fsub one shrinkage) in
     let shrunk_cov := add_to_diagonal shrunk_cov (fmul shrinkage mu) in
     Ok (shrunk_cov, shrinkage))%result.

Definition zeros (n : nat) : list float := repeat zero n.

(** Attribute assignments [self.attr = v]. *)
Definition with_n_features_in_ (v : nat) (self : LedoitWolf) : LedoitWolf :=
  {| store_precision := store_precision self;
     assume_centered := assume_centered self;
     block_size := block_size self;
     n_features_in_ := Some v;
     location_ := location_ self;
     shrinkage_ := shrinkage_ self;
     covariance_ := covariance_ self |}.

Definition with_location_ (v : list float) (self : LedoitWolf) : LedoitWolf :=
  {| store_precision := store_precision self;
     assume_centered := assume_centered self;
     block_size := block_size self;
     n_features_in_ := n_features_in_ self;
     location_ := Some v;
     shrinkage_ := shrinkage_ self;
     covariance_ := covariance_ self |}.

Definition with_shrinkage_ (v : float) (self : LedoitWolf) : LedoitWolf :=
  {| store_precision := store_precision self;
     assume_centered := assume_centered self;
     block_size := block_size self;
     n_features_in_ := n_features_in_ self;
     location_ := location_ self;
     shrinkage_ := Some v;
     covariance_ := covariance_ self |}.

Definition with_covariance_ (v : matrix) (self : LedoitWolf) : LedoitWolf :=
  {| store_precision := store_precision self;
     assume_centered := assume_centered self;
     block_size := block_size self;
     n_features_in_ := n_features_in_ self;
     location_ := location_ self;
     shrinkage_ := shrinkage_ self;
     covariance_ := Some v |}.

(** [LedoitWolf.fit(X)]:
<<
    (parameter validation of _fit_context)
    X = validate_data(self, X)
    if self.assume_centered: self.location_ = np.zeros(X.shape[1])
    else: self.location_ = X.mean(0)
    covariance, shrinkage = _ledoit_wolf(
        X - self.location_, assume_centered=True, block_size=self.block_size)
    self.shrinkage_ = shrinkage
    self._set_covariance(covariance)
    return self
>>
*)
Definition fit (X : matrix) : method LedoitWolf LedoitWolf :=
  (self <- get_self ;;
   (if (block_size self <? 1)%Z
    then raise (InvalidParameterError "block_size must be an int in [1, inf)")
    else ret tt) ;;
   X <- lift (check_array X true) ;;
   modify (with_n_features_in_ (shape1 X)) ;;
   self <- get_self ;;
   let location :=
     if assume_centered self then zeros (shape1 X) else np_mean X axis0 in
   modify (with_location_ location) ;;
   cs <- lift (ledoit_wolf (sub_row X location) (block_size self)) ;;
   modify (with_shrinkage_ (snd cs)) ;;
   covariance <- lift (check_array (fst cs) true) ;;
   modify (with_covariance_ covariance) ;;
   get_self)%method.

End Sklearn.
Import Sklearn.

(* ----------------------------------------------------------------- *)
(** ** The two estimators *)

(** [class MaxLikelihoodEstimator(GaussianEstimator)]: an object without
    attributes. *)
Module MaxLikelihoodEstimator.

Inductive t : Type := self_.

Definition __init__ : t := self_.

(**
<<
    def estimate_parameters(self, features):
        mean = np.mean(features, axis=0)
        covariance = np.cov(features, rowvar=False)
        return mean, covariance
>>
*)
Definition estimate_parameters (np : release) (features : matrix)
  : method t (ndarray * ndarray) :=
  let mean := np_mean features axis0 in
  let covariance := np_cov np features false in
  ret (Arr1 mean, covariance).

End MaxLikelihoodEstimator.

(** [class LeoditWolfEstimator(GaussianEstimator)]: an object that owns a
    scikit-learn [LedoitWolf] model. *)
Module LeoditWolfEstimator.

Record t : Type := Self { model : LedoitWolf }.

Definition default_block_size : Z := 1000.

(** [def __init__(self, block_size: int = 1000)]; [None] is the call that
    leaves the argument out. *)
Definition __init__ (block_size : option Z) : t :=
  let block_size :=
    match block_size with Some b => b | None => default_block_size end in
  {| model := LedoitWolf_init false block_size |}.

(**
<<
    def estimate_parameters(self, features):
        results = self.model.fit(features)
        mean = results.location_
        cov = results.covariance_
        return mean, cov
>>
    [fit] works on [self.model] in place and returns it. *)
Definition estimate_parameters (features : matrix)
  : method t (ndarray * ndarray) :=
  fun self =>
    match fit features (model self) with
    | (Ok results, model') =>
        match location_ results, covariance_ results with
        | Some mean, Some cov =>
            (Ok (Arr1 mean, Arr2 cov), {| model := model' |})
        | _, _ =>
            (Raise (AttributeError "location_ or covariance_"),
             {| model := model' |})
        end
    | (Raise e, model') => (Raise e, {| model := model' |})
    end.

End LeoditWolfEstimator.

(** The closed set of strategies behind the abstract [GaussianEstimator]. *)
Inductive GaussianEstimator : Type :=
| MLE (self : MaxLikelihoodEstimator.t)
| Shrinkage (self : LeoditWolfEstimator.t).

(** [estimator.estimate_parameters(features)] through dynamic dispatch. *)
Definition estimate_parameters (np : release) (features : matrix)
  : method GaussianEstimator (ndarray * ndarray) :=
  fun estimator =>
    match estimator with
    | MLE self =>
        let (r, self') :=
          MaxLikelihoodEstimator.estimate_parameters np features self in
        (r, MLE self')
    | Shrinkage self =>
        let (r, self') :=
          LeoditWolfEstimator.estimate_parameters features self in
        (r, Shrinkage self')
    end.

(** What an estimator was constructed with, as opposed to what a call
    stored in it. *)
Definition configuration (estimator : GaussianEstimator)
  : option (bool * bool * Z) :=
  match estimator with
  | MLE _ => None
  | Shrinkage self =>
      let m := LeoditWolfEstimator.model self in
      Some (store_precision m, assume_centered m, block_size m)
  end.

(* ----------------------------------------------------------------- *)
(** ** The extractors' dispatch on the dataset's file extension *)

Module Extractors.

Section Dispatch.

(** What the two methods lean on and [src/] does not hold: the type of
    paths, of loaded datasets and of feature arrays, [get_dataset_ext]
    of [dataloaders/utils], the loaders' [load_dataset_async] and the
    base class's [extract_features].  Each may raise. *)
Variables path dataset features : Type.
Variable get_dataset_ext : path -> result string.
Variable abc_load_dataset_async : path -> result dataset.
Variable midi_load_dataset_async : path -> result dataset.
Variable super_extract_features : dataset -> result features.

(** The calls that touch data, in the order they are made. *)
Inductive loader : Type := abc_dataloader | midi_dataloader.

Inductive event : Type :=
| Load (l : loader) (p : path)
| ExtractFeatures (d : dataset).

Definition trace : Type := list event.

Definition load_dataset_async (l : loader) (p : path)
  : method trace dataset :=
  fun tr =>
    (match l with
     | abc_dataloader => abc_load_dataset_async p
     | midi_dataloader => midi_load_dataset_async p
     end, tr ++ [Load l p]).

Definition extract_features (d : dataset) : method trace features :=
  fun tr => (super_extract_features d, tr ++ [ExtractFeatures d]).

(** [CLaMPExtractor.extract_features_from_path]
<<
      extension = get_dataset_ext(dataset_path)
      if extension == ".abc":
          data = self.abc_dataloader.load_dataset_async(dataset_path)
      else:
          msg = f"CLAmP supports .abc files but got {extension}"
          raise ValueError(msg)
      return super().extract_features(data)
>>
*)
Definition CLaMPExtractor_extract_features_from_path (dataset_path : path)
  : method trace features :=
  (extension <- lift (get_dataset_ext dataset_path) ;;
   data <-
     (if String.eqb extension ".abc" then
        load_dataset_async abc_dataloader dataset_path
      else
        let msg := ("CLAmP supports .abc files but got " ++ extension)%string in
        raise (ValueError msg)) ;;
   extract_features data)%method.

(** [CLaMP2Extractor.extract_features_from_path]
<<
      extension = get_dataset_ext(dataset_path)
      if extension in (".mid", ".midi"):
          data = self.midi_dataloader.load_dataset_async(dataset_path)
      elif extension == ".abc":
          data = self.abc_dataloader.load_dataset_async(dataset_path)
      else:
          msg = f"CLAmP 2 supports .mid, .midi and .abc files but got {extension}"
          raise ValueError(msg)
      return super().extract_features(data)
>>
*)
Definition CLaMP2Extractor_extract_features_from_path (dataset_path : path)
  : method trace features :=
  (extension <- lift (get_dataset_ext dataset_path) ;;
   data <-
     (if String.eqb extension ".mid" || String.eqb extension ".midi" then
        load_dataset_async midi_dataloader dataset_path
      else if String.eqb extension ".abc" then
        load_dataset_async abc_dataloader dataset_path
      else
        let msg :=
          ("CLAmP 2 supports .mid, .midi and .abc files but got "
             ++ extension)%string in
        raise (ValueError msg)) ;;
   extract_features data)%method.

End Dispatch.

End Extractors.

(* ----------------------------------------------------------------- *)
(** ** Reference definitions, in the specification's words *)

Module Reference.

(** "mean = average of rows": entry [j] is the sum of the rows' [j]-th
    entries over the number of rows. *)
Definition row_average (X : matrix) : list float :=
  map (fun j =>
         fdiv (sum_range 0 (shape0 X) (fun i => getitem X i j))
              (of_nat (shape0 X)))
      (seq 0 (shape1 X)).

(** "unbiased sample covariance over rows (rows are samples, columns are
    features)": entry [(j, k)] is the sum over the samples [i] of
    [(x_ij - mean_j) * (x_ik - mean_k)], over [n - 1]. *)
Definition sample_covariance (X : matrix) : matrix :=
  let m := row_average X in
  tabulate (shape1 X) (shape1 X)
    (fun j k =>
       fdiv (sum_range 0 (shape0 X)
               (fun i => fmul (fsub (getitem X i j) (nth j m NaN))
                              (fsub (getitem X i k) (nth k m NaN))))
            (of_nat (shape0 X - 1))).

(** Entry [(j, k)] of [X.T @ X], and the sum of a table over a rectangle
    of indices. *)
Definition gram (X : matrix) (j k : nat) : float :=
  sum_range 0 (shape0 X) (fun i => fmul (getitem X i j) (getitem X i k)).

Definition rect (F : nat -> nat -> float) (r rl c cl : nat) : float :=
  sum_range r rl (fun j => sum_range c cl (fun k => F j k)).




(** A valid embedding matrix: at least one row and one column, rows of
    the length the shape says, finite entries. *)
Definition valid (X : matrix) : Prop :=
  well_formed X /\ all_finite X = true /\ 1 <= shape0 X /\ 1 <= shape1 X.

(** An invalid embedding matrix: empty, or with a non-finite entry.  (Rows
    of unequal lengths cannot be told here: an [ndarray] is
    rectangular.) *)
Definition invalid (X : matrix) : Prop :=
  shape0 X = 0 \/ shape1 X = 0 \/ all_finite X = false.

End Reference.
Import Reference.

(* ----------------------------------------------------------------- *)
(** ** The estimates in exact arithmetic *)

Module Exact.

Definition qsum (l : list Qc) : Qc := big Qcplus 0%Qc l.

Definition qsum_range (lo len : nat) (f : nat -> Qc) : Qc :=
  big_range Qcplus 0%Qc lo len f.

(** An entry of a matrix of finite values, as a rational. *)
Definition entry (X : matrix) (i j : nat) : Qc :=
  match getitem X i j with
  | Fin q => q
  | _ => 0%Qc
  end.

Section Statistics.

Variable X : matrix.

Local Open Scope Qc_scope.

(** Mean of feature [j], and sample [i] with the means taken off. *)
Definition mean (j : nat) : Qc :=
  qsum_range 0 (shape0 X) (fun i => entry X i j) / qnat (shape0 X).

Definition centred (i j : nat) : Qc := entry X i j - mean j.

(** [sum_i c_ij * c_ik] *)
Definition scatter (j k : nat) : Qc :=
  qsum_range 0 (shape0 X) (fun i => centred i j * centred i k).

(** The unbiased sample covariance and the maximum-likelihood (biased)
    one. *)
Definition unbiased_covariance (j k : nat) : Qc :=
  scatter j k / qnat (shape0 X - 1).

Definition biased_covariance (j k : nat) : Qc :=
  scatter j k / qnat (shape0 X).

(** The Ledoit-Wolf quantities: [mu] is the mean variance, the scale of
    the identity target; [delta] is the squared distance from the biased
    covariance [S] to the target [mu * Id], over [D]; [beta] estimates the
    squared error of [S]. *)
Definition trace : Qc :=
  qsum_range 0 (shape1 X) (fun j => biased_covariance j j).

Definition mu : Qc := trace / qnat (shape1 X).

Definition fourth_moments : Qc :=
  qsum_range 0 (shape1 X) (fun j =>
    qsum_range 0 (shape1 X) (fun k =>
      qsum_range 0 (shape0 X) (fun i =>
        (centred i j * centred i j) * (centred i k * centred i k)))).

Definition scatter_squares : Qc :=
  qsum_range 0 (shape1 X) (fun j =>
    qsum_range 0 (shape1 X) (fun k => scatter j k * scatter j k)).

Definition delta_ : Qc :=
  scatter_squares / (qnat (shape0 X) * qnat (shape0 X)).

Definition beta : Qc :=
  1 / qnat (shape1 X * shape0 X)
  * (fourth_moments / qnat (shape0 X) - delta_).

Definition delta : Qc :=
  (delta_ - Q2Qc (inject_Z 2) * mu * trace + qnat (shape1 X) * (mu * mu))
  / qnat (shape1 X).

(** The shrinkage intensity: [min(beta, delta) / delta], zero when the
    numerator is. *)
Definition shrinkage : Qc :=
  let b := match delta ?= beta with Lt => delta | _ => beta end in
  match b ?= 0 with
  | Eq => 0
  | _ => b / delta
  end.

(** The convex combination [(1 - shrinkage) * S + shrinkage * mu * Id]. *)
Definition shrunk_covariance (j k : nat) : Qc :=
  biased_covariance j k * (1 - shrinkage)
  + (if (j =? k)%nat then shrinkage * mu else 0).

End Statistics.


(** [v.T @ c @ v] for a [D x D] table [c]. *)
Definition qform (D : nat) (c : nat -> nat -> Qc) (v : list Qc) : Qc :=
  qsum_range 0 D (fun j =>
    qsum_range 0 D (fun k => (nth j v 0 * c j k * nth k v 0)%Qc)).

(** A table of rationals as an array. *)
Definition to_matrix (n k : nat) (f : nat -> nat -> Qc) : matrix :=
  tabulate n k (fun i j => Fin (f i j)).

End Exact.

(* ----------------------------------------------------------------- *)
(** ** Symmetry and definiteness of a returned covariance *)

(** The covariance as a matrix: a 0-d array is the variance of a single
    feature. *)
Definition as_matrix (c : ndarray) : option matrix :=
  match c with
  | Arr0 x => Some (Matrix 1 1 [[x]])
  | Arr1 _ => None
  | Arr2 m => Some m
  end.








(* ----------------------------------------------------------------- *)
(** ** Concrete embedding matrices *)

Module Examples.

Definition of_rows (l : list (list Z)) : matrix :=
  Matrix (List.length l) (List.length (hd [] l)) (map (map of_Z) l).

(** Three samples of dimension two. *)
Definition three_by_two : matrix := of_rows [[1; 2]; [3; 5]; [4; 9]]%Z.



(** Three samples of dimension three. *)
Definition three_by_three : matrix :=
  of_rows [[1; 2; 0]; [3; 5; 1]; [4; 9; 7]]%Z.


(** A matrix with a [NaN] entry and one without rows. *)
Definition with_nan : matrix :=
  Matrix 2 2 [[of_Z 1; NaN]; [of_Z 3; of_Z 4]].

Definition no_rows : matrix := Matrix 0 3 [].

(** A stand-in for [get_dataset_ext] over two dataset directories. *)
Definition ext_of (dataset_path : string) : result string :=
  if String.eqb dataset_path "corpus/wav" then Ok ".wav"%string
  else Ok ".abc"%string.

End Examples.


(* ----------------------------------------------------------------- *)
(** ** [CLaMPExtractor._abc_filter] *)

Module AbcFilter.

Local Open Scope string_scope.

(** The Python string operations the filter uses. *)
Definition newline : string := String (Ascii.ascii_of_nat 10) "".

(** [s[:-1]] *)
Fixpoint drop_last (s : string) : string :=
  match s with
  | "" => ""
  | String a "" => ""
  | String a s' => String a (drop_last s')
  end.

(** [c in s] for a single character [c] *)
Fixpoint contains (c : Ascii.ascii) (s : string) : bool :=
  match s with
  | "" => false
  | String a s' => Ascii.eqb a c || contains c s'
  end.

(** [s.split(c)] for a single character [c]: never an empty list. *)
Fixpoint split (c : Ascii.ascii) (s : string) : list string :=
  match s with
  | "" => [""]
  | String a s' =>
      if Ascii.eqb a c then "" :: split c s'
      else
        match split c s' with
        | h :: t => String a h :: t
        | [] => [String a ""]
        end
  end.

Definition percent : Ascii.ascii := Ascii.ascii_of_nat 37.

(** The information fields the filter drops; ["G"] stands in the source
    without its colon. *)
Definition fields : list string :=
  ["A:"; "B:"; "C:"; "D:"; "F:"; "G"; "H:"; "N:"; "O:"; "R:"; "r:"; "S:";
   "T:"; "W:"; "w:"; "X:"; "Z:"].

(** [x in l] for a list of strings *)
Definition mem (x : string) (l : list string) : bool :=
  existsb (String.eqb x) l.

(** One turn of the loop:
<<
        for line in lines:
            if line[:2] in ["A:", "B:", "C:", "D:", "F:", "G", "H:", "N:",
                            "O:", "R:", "r:", "S:", "T:", "W:", "w:",
                            "X:", "Z:"] \
                    or line == "\n" \
                    or (line.startswith("%") and not line.startswith("%%score")):
                continue
            else:
                if "%" in line and not line.startswith("%%score"):
                    line = "%".join(line.split("%")[:-1])
                    music += line[:-1] + "\n"
                else:
                    music += line + '\n'
>>
*)
Definition step (music line : string) : string :=
  if mem (substring 0 2 line) fields
     || String.eqb line newline
     || (prefix "%" line && negb (prefix "%%score" line))
  then music
  else
    if contains percent line && negb (prefix "%%score" line) then
      let line := String.concat "%" (removelast (split percent line)) in
      music ++ (drop_last line ++ newline)
    else music ++ (line ++ newline).

(** [_abc_filter(lines)]: [music = ""], the loop, [return music]. *)
Definition _abc_filter (lines : list string) : string :=
  fold_left step lines "".

(** What one line adds to the music. *)
Definition kept (line : string) : string := step "" line.

Definition ends_with_newline (s : string) : Prop :=
  exists t, s = t ++ newline.

End AbcFilter.

(* ----------------------------------------------------------------- *)
(** ** The extractors' dispatch on a single file's suffix *)

Module SingleFile.

Section Dispatch.

(** What the two methods lean on and [src/] does not hold: paths, loaded
    pieces and feature arrays, [Path(filepath).suffix] of [pathlib], the
    loaders' [load_file] and the base class's [extract_feature]. *)
Variables path piece features : Type.
Variable suffix : path -> string.
Variable abc_load_file : path -> result piece.
Variable midi_load_file : path -> result piece.
Variable super_extract_feature : piece -> result features.

(** The calls that touch data, in the order they are made. *)
Inductive event : Type :=
| LoadFile (l : Extractors.loader) (p : path)
| ExtractFeature (d : piece).

Definition trace : Type := list event.

Definition load_file (l : Extractors.loader) (p : path)
  : method trace piece :=
  fun tr =>
    (match l with
     | Extractors.abc_dataloader => abc_load_file p
     | Extractors.midi_dataloader => midi_load_file p
     end, tr ++ [LoadFile l p]).

Definition extract_feature (d : piece) : method trace features :=
  fun tr => (super_extract_feature d, tr ++ [ExtractFeature d]).

(** [CLaMPExtractor.extract_feature_from_path]
<<
        extension = Path(filepath).suffix
        if extension == ".abc":
            data = self.abc_dataloader.load_file(filepath)
        else:
            msg = f"CLAmP 2 supports .abc files but got {extension}"
            raise ValueError(msg)
        return super().extract_feature(data)
>>
*)
Definition CLaMPExtractor_extract_feature_from_path (filepath : path)
  : method trace features :=
  (let extension := suffix filepath in
   data <-
     (if String.eqb extension ".abc" then
        load_file Extractors.abc_dataloader filepath
      else
        let msg :=
          ("CLAmP 2 supports .abc files but got " ++ extension)%string in
        raise (ValueError msg)) ;;
   extract_feature data)%method.

(** [CLaMP2Extractor.extract_feature_from_path]
<<
        extension = Path(filepath).suffix
        if extension in (".mid", ".midi"):
            data = self.midi_dataloader.load_file(filepath)
        elif extension == ".abc":
            data = self.abc_dataloader.load_file(filepath)
        else:
            msg = f"CLAmP 2 supports .mid, .midi and .abc files but got {extension}"
            raise ValueError(msg)
        return super().extract_feature(data)
>>
*)
Definition CLaMP2Extractor_extract_feature_from_path (filepath : path)
  : method trace features :=
  (let extension := suffix filepath in
   data <-
     (if String.eqb extension ".mid" || String.eqb extension ".midi" then
        load_file Extractors.midi_dataloader filepath
      else if String.eqb extension ".abc" then
        load_file Extractors.abc_dataloader filepath
      else
        let msg :=
          ("CLAmP 2 supports .mid, .midi and .abc files but got "
             ++ extension)%string in
        raise (ValueError msg)) ;;
   extract_feature data)%method.

End Dispatch.

End SingleFile.

(* ----------------------------------------------------------------- *)
(** ** [CLaMP2Extractor.extract_feature]: segments, padding, weights *)

Module Segments.

(** What the tensor code can raise. *)
Inductive error : Type :=
| IndexError (msg : string)
| ValueError (msg : string)
| RuntimeError (msg : string).

Inductive outcome (A : Type) : Type :=
| Returned (a : A)
| Raised (e : error).
Arguments Returned {A} a.
Arguments Raised {A} e.

Definition and_then {A B} (r : outcome A) (k : A -> outcome B) : outcome B :=
  match r with
  | Returned a => k a
  | Raised e => Raised e
  end.

(** [for x in l: ...] where a turn may raise *)
Fixpoint for_each {A B} (f : A -> outcome B) (l : list A)
  : outcome (list B) :=
  match l with
  | [] => Returned []
  | a :: l' =>
      and_then (f a) (fun b =>
      and_then (for_each f l') (fun bs => Returned (b :: bs)))
  end.

(** [l[start:stop]] and [l[-n:]] (for [n >= 1]) *)
Definition slice {A} (l : list A) (start stop : nat) : list A :=
  firstn (stop - start) (skipn start l).

Definition last_items {A} (n : nat) (l : list A) : list A :=
  skipn (List.length l - n) l.

(** [range(0, stop, step)] for [step >= 1] *)
Definition range_step (stop step : nat) : list nat :=
  map (fun k => k * step) (seq 0 ((stop + step - 1) / step)).

Definition sum_nat (l : list nat) : nat := fold_right Nat.add 0 l.

Section ExtractFeature.

(** [config.PATCH_LENGTH], [config.PATCH_SIZE], the patchilizer's
    [pad_token_id] and [encode], and the model's [get_music_features]:
    none of them is under [src/].  A patch is a row of [PATCH_SIZE]
    token ids (the patchilizer pads every patch to that width, which is
    what lets [torch.tensor] and the concatenation with the padding go
    through), and the feature of one segment is a row of floats, the
    [(1, H)] tensor the model returns for a batch of one. *)
Variables PATCH_LENGTH PATCH_SIZE : nat.
Variable pad_token_id : Z.
Variable encode : string -> list (list Z).
Variable get_music_features : list (list Z) -> list float -> list float.

(**
<<
        max_input_length = config.PATCH_LENGTH
        segment_list = []
        for i in range(0, len(input_data), max_input_length):
            segment_list.append(input_data[i:i+max_input_length])
        segment_list[-1] = input_data[-max_input_length:]
>>
*)
Definition segment_list (input_data : list (list Z))
  : outcome (list (list (list Z))) :=
  let max_input_length := PATCH_LENGTH in
  if max_input_length =? 0 then
    Raised (ValueError "range() arg 3 must not be zero")
  else
    let segment_list :=
      map (fun i => slice input_data i (i + max_input_length))
          (range_step (List.length input_data) max_input_length) in
    match segment_list with
    | [] => Raised (IndexError "list assignment index out of range")
    | _ :: _ =>
        Returned (removelast segment_list
                  ++ [last_items max_input_length input_data])
    end.

(** What one turn of the second loop hands to the model:
<<
            input_masks = torch.tensor([1]*input_segment.size(0))
            pad_indices = torch.ones((config.PATCH_LENGTH - input_segment.size(0),
                                      config.PATCH_SIZE)).long() * self.patchilizer.pad_token_id
            input_masks = torch.cat((input_masks,
                                     torch.zeros(max_input_length - input_segment.size(0))), 0)
            input_segment = torch.cat((input_segment, pad_indices), 0)
>>
    ([torch.ones] and [torch.zeros] raise on a negative size). *)
Definition model_inputs (input_segment : list (list Z))
  : outcome (list (list Z) * list float) :=
  let size := List.length input_segment in
  if PATCH_LENGTH <? size then
    Raised (RuntimeError "Trying to create tensor with negative dimension")
  else
    let input_masks := repeat one size in
    let pad_indices :=
      repeat (repeat pad_token_id PATCH_SIZE) (PATCH_LENGTH - size) in
    let input_masks := input_masks ++ repeat zero (PATCH_LENGTH - size) in
    let input_segment := input_segment ++ pad_indices in
    Returned (input_segment, input_masks).

(**
<<
        full_chunk_cnt = len(input_data) // max_input_length
        remain_chunk_len = len(input_data) % max_input_length
        if remain_chunk_len == 0:
            feature_weights = [max_input_length] * full_chunk_cnt
        else:
            feature_weights = [max_input_length] * full_chunk_cnt + [remain_chunk_len]
>>
*)
Definition feature_weights (len : nat) : list nat :=
  let max_input_length := PATCH_LENGTH in
  let full_chunk_cnt := len / max_input_length in
  let remain_chunk_len := len mod max_input_length in
  if remain_chunk_len =? 0 then repeat max_input_length full_chunk_cnt
  else repeat max_input_length full_chunk_cnt ++ [remain_chunk_len].

(** Row [i] of [states * weights] for [states] of shape [(k, H)] and
    [weights] of shape [(w, 1)], under the broadcasting rule. *)
Definition broadcast_rows (states : list (list float)) (weights : list nat)
  : outcome (list (list float)) :=
  let k := List.length states in
  let w := List.length weights in
  let times (h : list float) (x : nat) := map (fun a => fmul a (of_nat x)) h in
  if k =? w then
    Returned (map (fun p => times (fst p) (snd p)) (combine states weights))
  else if w =? 1 then
    Returned (map (fun h => times h (hd 0 weights)) states)
  else if k =? 1 then
    Returned (map (fun x => times (hd [] states) x) weights)
  else
    Raised (RuntimeError "The size of tensor a must match the size of tensor b").

(**
<<
        last_hidden_states_list = torch.concat(last_hidden_states_list, 0)
        last_hidden_states_list = last_hidden_states_list * feature_weights
        last_hidden_states_list = last_hidden_states_list.sum(dim=0) / feature_weights.sum()
        return last_hidden_states_list.unsqueeze(0).detach().cpu().numpy()
>>
    [torch.concat] raises on an empty list and on rows of unequal
    widths. *)
Definition weighted_mean (states : list (list float)) (weights : list nat)
  : outcome (list (list float)) :=
  match states with
  | [] => Raised (RuntimeError "torch.cat(): expected a non-empty list of Tensors")
  | h0 :: _ =>
      let H := List.length h0 in
      if negb (forallb (fun h => List.length h =? H) states) then
        Raised (RuntimeError "Sizes of tensors must match except in dimension 0")
      else
        and_then (broadcast_rows states weights) (fun rows =>
        let total :=
          map (fun j => fsum (map (fun row => nth j row NaN) rows))
              (seq 0 H) in
        Returned
          [map (fun s => fdiv s (of_nat (sum_nat weights))) total])
  end.

(** [CLaMP2Extractor.extract_feature(data)] *)
Definition extract_feature (data : string) : outcome (list (list float)) :=
  let input_data := encode data in
  and_then (segment_list input_data) (fun segment_list =>
  and_then (for_each model_inputs segment_list) (fun inputs =>
  let last_hidden_states_list :=
    map (fun p => get_music_features (fst p) (snd p)) inputs in
  weighted_mean last_hidden_states_list
    (feature_weights (List.length input_data)))).

End ExtractFeature.

End Segments.
(* ================================================================= *)
(** * Part II: properties *)
(* ================================================================= *)

(* ----------------------------------------------------------------- *)
(** ** Arithmetic of [float] *)


Lemma Qc_eq_bool_false (x y : Qc) : Qc_eq_bool x y = false <-> x <> y.
Proof.
  unfold Qc_eq_bool. destruct (Qc_eq_dec x y); split; congruence.
Qed.


Ltac float_cases :=
  repeat match goal with a : float |- _ => destruct a end;
  simpl; try reflexivity; try (f_equal; ring).

Lemma fadd_comm (a b : float) : fadd a b = fadd b a.
Proof. float_cases. Qed.

Lemma fadd_assoc (a b c : float) : fadd a (fadd b c) = fadd (fadd a b) c.
Proof. float_cases. Qed.

Lemma fadd_zero_l (a : float) : fadd zero a = a.
Proof. float_cases. Qed.


Lemma fmul_comm (a b : float) : fmul a b = fmul b a.
Proof.
  destruct a, b; simpl; try reflexivity.
  - f_equal; ring.
  - destruct (q ?= 0)%Qc; reflexivity.
  - destruct (q ?= 0)%Qc; reflexivity.
Qed.

Lemma of_nat_Fin (n : nat) : of_nat n = Fin (qnat n).
Proof. reflexivity. Qed.

Lemma qnat_pos (n : nat) : 0 < n -> (0 < qnat n)%Qc.
Proof.
  intros H. unfold qnat, Qclt, Q2Qc, this.
  rewrite !Qred_correct. unfold Qlt. simpl. lia.
Qed.

Lemma qnat_nonneg (n : nat) : (0 <= qnat n)%Qc.
Proof.
  unfold qnat, Qcle, Q2Qc, this.
  rewrite !Qred_correct. unfold Qle. simpl. lia.
Qed.

Lemma Qc_pos_neq0 (q : Qc) : (0 < q)%Qc -> q <> 0%Qc.
Proof. intros H E. subst. revert H. apply Qcle_not_lt, Qcle_refl. Qed.

Lemma qnat_neq0 (n : nat) : 0 < n -> qnat n <> 0%Qc.
Proof. intros H. apply Qc_pos_neq0, qnat_pos, H. Qed.

Lemma Qc_pos_compare (q : Qc) : (0 < q)%Qc -> (q ?= 0)%Qc = Gt.
Proof. intros H. apply Qcgt_alt. exact H. Qed.

Lemma Qcinv_pos (q : Qc) : (0 < q)%Qc -> (0 < / q)%Qc.
Proof.
  intros H. unfold Qclt, Qcinv, Q2Qc, this in *.
  rewrite !Qred_correct in *. apply Qinv_lt_0_compat. exact H.
Qed.

Lemma fdiv_Fin (x y : Qc) : y <> 0%Qc -> fdiv (Fin x) (Fin y) = Fin (x / y).
Proof.
  intros H. simpl. apply Qc_eq_bool_false in H. rewrite H. reflexivity.
Qed.

(** Multiplying by the reciprocal of a positive number is dividing by
    it, also on the special values. *)
Lemma fmul_reciprocal (a : float) (q : Qc) :
  (0 < q)%Qc -> fmul a (fdiv one (Fin q)) = fdiv a (Fin q).
Proof.
  intros H.
  assert (Hn : q <> 0%Qc) by (apply Qc_pos_neq0; exact H).
  unfold one. rewrite (fdiv_Fin 1 Hn).
  assert (Hs : ((1 / q) ?= 0)%Qc = Gt).
  { apply Qc_pos_compare. unfold Qcdiv. rewrite Qcmult_1_l.
    apply Qcinv_pos, H. }
  apply Qc_eq_bool_false in Hn.
  destruct a; simpl; rewrite ?Hn, ?Hs, ?(Qc_pos_compare H); try reflexivity.
  f_equal. field. apply Qc_eq_bool_false. exact Hn.
Qed.


(* ----------------------------------------------------------------- *)
(** ** Indexing tabulated arrays *)

Lemma map_seq_ext {A} (f g : nat -> A) (lo n : nat) :
  (forall i, lo <= i < lo + n -> f i = g i) ->
  map f (seq lo n) = map g (seq lo n).
Proof.
  intros H. apply map_ext_in. intros i Hi. apply in_seq in Hi. auto.
Qed.

Lemma nth_map_seq {A} (f : nat -> A) (lo n i : nat) (d : A) :
  i < n -> nth i (map f (seq lo n)) d = f (lo + i).
Proof.
  intros H. rewrite (nth_indep _ d (f 0)) by (rewrite length_map, length_seq; exact H).
  rewrite map_nth, seq_nth by exact H. reflexivity.
Qed.

Lemma sum_range_ext (f g : nat -> float) (lo n : nat) :
  (forall i, lo <= i < lo + n -> f i = g i) ->
  sum_range lo n f = sum_range lo n g.
Proof.
  intros H. unfold sum_range, big_range. f_equal. apply map_seq_ext, H.
Qed.

Lemma getitem_tabulate (n k : nat) (f : nat -> nat -> float) (i j : nat) :
  i < n -> j < k -> getitem (tabulate n k f) i j = f i j.
Proof.
  intros Hi Hj. unfold getitem, tabulate. simpl.
  rewrite (nth_map_seq _ 0 _ Hi). simpl.
  rewrite (nth_map_seq _ 0 _ Hj). reflexivity.
Qed.

Lemma tabulate_ext (n k : nat) (f g : nat -> nat -> float) :
  (forall i j, i < n -> j < k -> f i j = g i j) ->
  tabulate n k f = tabulate n k g.
Proof.
  intros H. unfold tabulate. f_equal.
  apply map_seq_ext. intros i Hi. apply map_seq_ext. intros j Hj.
  apply H; lia.
Qed.

Lemma well_formed_tabulate (n k : nat) (f : nat -> nat -> float) :
  well_formed (tabulate n k f).
Proof.
  unfold well_formed, well_formedb, tabulate. simpl.
  rewrite length_map, length_seq, Nat.eqb_refl. simpl.
  apply forallb_forall. intros r Hr. apply in_map_iff in Hr.
  destruct Hr as (i & <- & _). rewrite length_map, length_seq.
  apply Nat.eqb_refl.
Qed.

Lemma well_formed_inv (m : matrix) :
  well_formed m ->
  List.length (data m) = shape0 m /\
  (forall r, In r (data m) -> List.length r = shape1 m).
Proof.
  unfold well_formed, well_formedb. intros H.
  apply andb_prop in H. destruct H as [H0 H1].
  apply Nat.eqb_eq in H0. split; [exact H0|].
  intros r Hr. rewrite forallb_forall in H1.
  apply Nat.eqb_eq, H1, Hr.
Qed.

Lemma list_eq_map_nth {A} (l : list A) (d : A) :
  l = map (fun i => nth i l d) (seq 0 (List.length l)).
Proof.
  apply (nth_ext _ _ d d).
  - rewrite length_map, length_seq. reflexivity.
  - intros i Hi. rewrite (nth_map_seq (fun i => nth i l d) 0 d Hi). reflexivity.
Qed.

(** A well-formed matrix is the table of its entries. *)
Lemma tabulate_getitem (m : matrix) :
  well_formed m -> m = tabulate (shape0 m) (shape1 m) (getitem m).
Proof.
  intros H. destruct (well_formed_inv H) as [H0 H1].
  destruct m as [n k rows]. simpl in *. unfold tabulate. f_equal.
  subst n. rewrite (list_eq_map_nth rows []) at 1.
  apply map_seq_ext. intros i Hi. simpl in Hi.
  assert (Hk : List.length (nth i rows []) = k) by (apply H1, nth_In; lia).
  rewrite (list_eq_map_nth (nth i rows []) NaN) at 1. rewrite Hk.
  reflexivity.
Qed.

(* ----------------------------------------------------------------- *)
(** ** MaxLikelihoodEstimator *)

Lemma np_mean_axis0_row_average (X : matrix) :
  np_mean X axis0 = row_average X.
Proof. unfold np_mean, np_sum_axis, row_average. apply map_map. Qed.

Lemma getitem_transpose (X : matrix) (i j : nat) :
  i < shape1 X -> j < shape0 X -> getitem (transpose X) i j = getitem X j i.
Proof.
  intros Hi Hj. unfold transpose.
  rewrite getitem_tabulate by assumption. reflexivity.
Qed.

Lemma np_mean_transpose (X : matrix) :
  np_mean (transpose X) axis1 = row_average X.
Proof.
  unfold np_mean, np_sum_axis, row_average. rewrite map_map. simpl.
  apply map_seq_ext. intros j Hj. f_equal.
  apply sum_range_ext. intros i Hi. apply getitem_transpose; lia.
Qed.

Lemma transposes_rows (np : release) (X : matrix) :
  2 <= shape0 X -> transposes np X = true.
Proof.
  intros H. destruct np; simpl; [|reflexivity].
  destruct (Nat.eqb_spec (shape0 X) 1); [lia|reflexivity].
Qed.

Lemma of_Z_pred (n : nat) : 1 <= n -> of_Z (Z.of_nat n - 1) = of_nat (n - 1).
Proof. intros H. unfold of_nat. f_equal. lia. Qed.

(** The centred product [np.cov] forms, entry by entry. *)
Lemma centred_dot (X : matrix) (j k : nat) :
  j < shape1 X -> k < shape1 X ->
  let Xc := sub_column (transpose X) (np_mean (transpose X) axis1) in
  getitem (dot Xc (transpose Xc)) j k =
  sum_range 0 (shape0 X)
    (fun i => fmul (fsub (getitem X i j) (nth j (row_average X) NaN))
                   (fsub (getitem X i k) (nth k (row_average X) NaN))).
Proof.
  intros Hj Hk Xc. unfold dot. rewrite getitem_tabulate by assumption.
  apply sum_range_ext. intros i Hi. simpl in Hi.
  assert (E : forall c, c < shape1 X ->
            getitem Xc c i =
            fsub (getitem X i c) (nth c (row_average X) NaN)).
  { intros c Hc. unfold Xc, sub_column.
    rewrite getitem_tabulate by (simpl; lia).
    rewrite np_mean_transpose. f_equal.
    apply getitem_transpose; lia. }
  rewrite (E j Hj). f_equal.
  rewrite getitem_transpose by (simpl; lia).
  apply E, Hk.
Qed.

Lemma np_cov_sample_covariance (np : release) (X : matrix) :
  2 <= shape0 X ->
  np_cov np X false = squeeze (sample_covariance X).
Proof.
  intros Hn. unfold np_cov.
  rewrite (transposes_rows np X Hn). cbn [negb andb].
  change (shape0 (transpose X)) with (shape1 X).
  change (shape1 (transpose X)) with (shape0 X).
  destruct (Nat.eqb_spec (shape1 X) 0) as [HD|HD].
  - unfold sample_covariance, squeeze, tabulate. rewrite HD. reflexivity.
  - destruct (Z.leb_spec (Z.of_nat (shape0 X) - 1) 0) as [Hf|Hf]; [lia|].
    f_equal. unfold scale, sample_covariance.
    change (shape0 (dot ?a ?b)) with (shape0 a).
    change (shape1 (dot ?a ?b)) with (shape1 b).
    cbn [shape0 shape1 sub_column transpose tabulate].
    apply tabulate_ext. intros j k Hj Hk.
    rewrite of_Z_pred by lia. rewrite of_nat_Fin.
    rewrite fmul_reciprocal by (apply qnat_pos; lia).
    f_equal. apply centred_dot; assumption.
Qed.

Lemma squeeze_matrix (m : matrix) :
  2 <= shape0 m -> 2 <= shape1 m -> squeeze m = Arr2 m.
Proof.
  intros H0 H1. unfold squeeze.
  destruct (shape0 m) as [|[|n]]; try lia.
  destruct (shape1 m) as [|[|k]]; try lia.
  reflexivity.
Qed.



(** The figures of the three-by-two example: means 8/3 and 16/3,
    variances 7/3 and 37/3, covariance 31/6. *)
Example mle_three_by_two :
  let r := fst (MaxLikelihoodEstimator.estimate_parameters from_2_2
                  Examples.three_by_two MaxLikelihoodEstimator.self_) in
  match r with
  | Ok (mean, cov) =>
      same_array mean
        (Arr1 [Fin (Q2Qc (8 # 3)); Fin (Q2Qc (16 # 3))])
      && same_array cov
           (Arr2 (Matrix 2 2
                    [[Fin (Q2Qc (7 # 3)); Fin (Q2Qc (31 # 6))];
                     [Fin (Q2Qc (31 # 6)); Fin (Q2Qc (37 # 3))]]))
  | Raise _ => false
  end = true.
Proof. vm_compute. reflexivity. Qed.

(* ----------------------------------------------------------------- *)
(** ** A single sample under MaxLikelihoodEstimator *)













(* ----------------------------------------------------------------- *)
(** ** The extractors' dispatch *)

Section DispatchFacts.

Variables path dataset features : Type.
Variable get_dataset_ext : path -> result string.
Variable abc_load_dataset_async : path -> result dataset.
Variable midi_load_dataset_async : path -> result dataset.
Variable super_extract_features : dataset -> result features.

Let clamp :=
  Extractors.CLaMPExtractor_extract_features_from_path
    get_dataset_ext abc_load_dataset_async midi_load_dataset_async
    super_extract_features.
Let clamp2 :=
  Extractors.CLaMP2Extractor_extract_features_from_path
    get_dataset_ext abc_load_dataset_async midi_load_dataset_async
    super_extract_features.

(** C10.  When the dataset's extension is not [".abc"],
    [CLaMPExtractor.extract_features_from_path] raises [ValueError], and
    when it is none of [".mid"], [".midi"], [".abc"],
    [CLaMP2Extractor.extract_features_from_path] raises [ValueError]; in
    both cases the trace of data-touching calls is as it was before the
    call: no loader has run. *)
Theorem unsupported_extension_raises_before_loading
  (dataset_path : path) (extension : string)
  (tr : Extractors.trace path dataset) :
  get_dataset_ext dataset_path = Ok extension ->
  (extension <> ".abc"%string ->
   clamp dataset_path tr
   = (Raise (ValueError
               ("CLAmP supports .abc files but got " ++ extension)%string),
      tr))
  /\ (extension <> ".mid"%string -> extension <> ".midi"%string ->
      extension <> ".abc"%string ->
      clamp2 dataset_path tr
      = (Raise (ValueError
                  ("CLAmP 2 supports .mid, .midi and .abc files but got "
                     ++ extension)%string),
         tr)).
Proof.
  intros Hext. split.
  - intros Habc. apply String.eqb_neq in Habc.
    unfold clamp, Extractors.CLaMPExtractor_extract_features_from_path,
      bind, lift, raise.
    rewrite Hext, Habc. reflexivity.
  - intros Hmid Hmidi Habc.
    apply String.eqb_neq in Hmid, Hmidi, Habc.
    unfold clamp2, Extractors.CLaMP2Extractor_extract_features_from_path,
      bind, lift, raise.
    rewrite Hext, Hmid, Hmidi, Habc. reflexivity.
Qed.

End DispatchFacts.

Lemma unsupported_extension_witness :
  Examples.ext_of "corpus/wav" = Ok ".wav"%string /\
  Extractors.CLaMPExtractor_extract_features_from_path
    Examples.ext_of (fun _ : string => Ok tt) (fun _ : string => Ok tt)
    (fun _ : unit => Ok tt) "corpus/wav"%string []
  = (Raise (ValueError "CLAmP supports .abc files but got .wav"), []).
Proof.
  split; [reflexivity|].
  apply (proj1 (@unsupported_extension_raises_before_loading
                  string unit unit Examples.ext_of
                  (fun _ => Ok tt) (fun _ => Ok tt) (fun _ => Ok tt)
                  "corpus/wav"%string ".wav"%string [] eq_refl)).
  discriminate.
Defined.

(* ----------------------------------------------------------------- *)
(** ** Control flow of [LedoitWolf.fit] *)

(** [fit] step by step: which check stops it, and the attributes stored
    by then. *)
Lemma fit_unfold (X : matrix) (m : LedoitWolf) :
  fit X m =
  if (block_size m <? 1)%Z then
    (Raise (InvalidParameterError "block_size must be an int in [1, inf)"), m)
  else
    match check_array X true with
    | Raise e => (Raise e, m)
    | Ok X' =>
        let m1 := with_n_features_in_ (shape1 X') m in
        let location :=
          if assume_centered m then zeros (shape1 X') else np_mean X' axis0 in
        let m2 := with_location_ location m1 in
        match ledoit_wolf (sub_row X' location) (block_size m) with
        | Raise e => (Raise e, m2)
        | Ok cs =>
            let m3 := with_shrinkage_ (snd cs) m2 in
            match check_array (fst cs) true with
            | Raise e => (Raise e, m3)
            | Ok covariance =>
                let m4 := with_covariance_ covariance m3 in (Ok m4, m4)
            end
        end
    end.
Proof.
  unfold fit, bind, get_self, modify, lift, raise, ret.
  destruct (block_size m <? 1)%Z; [reflexivity|].
  destruct (check_array X true) as [X'|e]; [|reflexivity].
  cbn [with_n_features_in_ assume_centered block_size].
  destruct (ledoit_wolf _ _) as [cs|e]; [|reflexivity].
  destruct (check_array (fst cs) true); reflexivity.
Qed.

Lemma check_array_Ok (X X' : matrix) (b : bool) :
  check_array X b = Ok X' ->
  X' = X /\ (b = true -> all_finite X = true)
  /\ 1 <= shape0 X /\ 1 <= shape1 X.
Proof.
  unfold check_array. intros H.
  destruct b; cbn [andb] in H.
  - destruct (all_finite X); cbn [negb] in H; [|discriminate].
    destruct (Nat.ltb_spec (shape0 X) 1); [discriminate|].
    destruct (Nat.ltb_spec (shape1 X) 1); [discriminate|].
    inversion H. subst. split; [reflexivity|]. split; [reflexivity|].
    split; assumption.
  - destruct (Nat.ltb_spec (shape0 X) 1); [discriminate|].
    destruct (Nat.ltb_spec (shape1 X) 1); [discriminate|].
    inversion H. subst. split; [reflexivity|]. split; [discriminate|].
    split; assumption.
Qed.

Lemma check_array_pass (X : matrix) (b : bool) :
  (b = true -> all_finite X = true) -> 1 <= shape0 X -> 1 <= shape1 X ->
  check_array X b = Ok X.
Proof.
  intros Hf H0 H1. unfold check_array.
  destruct b; cbn [andb].
  - rewrite Hf by reflexivity. cbn [negb].
    destruct (Nat.ltb_spec (shape0 X) 1); [lia|].
    destruct (Nat.ltb_spec (shape1 X) 1); [lia|]. reflexivity.
  - destruct (Nat.ltb_spec (shape0 X) 1); [lia|].
    destruct (Nat.ltb_spec (shape1 X) 1); [lia|]. reflexivity.
Qed.

Lemma check_array_Raise (X : matrix) (b : bool) (e : exception) :
  check_array X b = Raise e -> is_value_error e = true.
Proof.
  unfold check_array. intros H.
  destruct (b && negb (all_finite X)); [inversion H; reflexivity|].
  destruct (shape0 X <? 1); [inversion H; reflexivity|].
  destruct (shape1 X <? 1); [inversion H; reflexivity|discriminate].
Qed.

Lemma check_array_invalid (X : matrix) :
  invalid X -> exists e, check_array X true = Raise e.
Proof.
  unfold check_array, invalid. intros H. cbn [andb].
  destruct (all_finite X); cbn [negb]; [|eauto].
  destruct (Nat.ltb_spec (shape0 X) 1); [eauto|].
  destruct (Nat.ltb_spec (shape1 X) 1); [eauto|].
  destruct H as [H|[H|H]]; [lia|lia|discriminate H].
Qed.

Lemma ledoit_wolf_shrinkage_Raise (X : matrix) (b : Z) (e : exception) :
  ledoit_wolf_shrinkage X b = Raise e -> is_value_error e = true.
Proof.
  unfold ledoit_wolf_shrinkage, bind_result. intros H.
  destruct (check_array X true) as [X'|e'] eqn:E.
  - destruct (shape1 X' =? 1); [discriminate|].
    cbv zeta in H. destruct (blocked_sums _ _ _ _). discriminate.
  - inversion H. subst. eapply check_array_Raise, E.
Qed.

Lemma ledoit_wolf_Raise (X : matrix) (b : Z) (e : exception) :
  ledoit_wolf X b = Raise e -> is_value_error e = true.
Proof.
  unfold ledoit_wolf, bind_result, empirical_covariance, bind_result.
  intros H. destruct (shape1 X =? 1); [discriminate|].
  destruct (ledoit_wolf_shrinkage X b) eqn:E.
  - destruct (check_array X false) eqn:E'; [discriminate|].
    inversion H. subst. eapply check_array_Raise, E'.
  - inversion H. subst. eapply ledoit_wolf_shrinkage_Raise, E.
Qed.

Lemma fit_Raise (X : matrix) (m m' : LedoitWolf) (e : exception) :
  fit X m = (Raise e, m') -> is_value_error e = true.
Proof.
  rewrite fit_unfold. intros H.
  destruct (block_size m <? 1)%Z; [inversion H; reflexivity|].
  destruct (check_array X true) as [X'|e1] eqn:E1;
    [|inversion H; subst; eapply check_array_Raise, E1].
  cbv zeta in H.
  destruct (ledoit_wolf _ _) as [cs|e2] eqn:E2;
    [|inversion H; subst; eapply ledoit_wolf_Raise, E2].
  destruct (check_array (fst cs) true) as [c|e3] eqn:E3;
    [discriminate|inversion H; subst; eapply check_array_Raise, E3].
Qed.

(** A rejected input leaves the model as it was. *)
Lemma fit_invalid (X : matrix) (m : LedoitWolf) :
  invalid X ->
  exists e, fit X m = (Raise e, m) /\ is_value_error e = true.
Proof.
  intros H. destruct (check_array_invalid H) as [e He].
  rewrite fit_unfold.
  destruct (block_size m <? 1)%Z.
  - eexists. split; reflexivity.
  - rewrite He. exists e. split; [reflexivity|].
    eapply check_array_Raise, He.
Qed.

(** [fit] never touches the constructor parameters. *)
Lemma fit_parameters (X : matrix) (m : LedoitWolf) :
  let m' := snd (fit X m) in
  store_precision m' = store_precision m
  /\ assume_centered m' = assume_centered m
  /\ block_size m' = block_size m.
Proof.
  rewrite fit_unfold.
  destruct (block_size m <? 1)%Z; [simpl; auto|].
  destruct (check_array X true) as [X'|e1]; [|simpl; auto].
  cbv zeta.
  destruct (ledoit_wolf _ _) as [cs|e2]; [|simpl; auto].
  destruct (check_array (fst cs) true); simpl; auto.
Qed.

(** What [estimate_parameters] returns is a function of the constructor
    parameters and of the features, not of the attributes stored by
    earlier calls. *)
Lemma shrinkage_result_parameters
  (X : matrix) (s1 s2 : LeoditWolfEstimator.t) :
  assume_centered (LeoditWolfEstimator.model s1)
  = assume_centered (LeoditWolfEstimator.model s2) ->
  block_size (LeoditWolfEstimator.model s1)
  = block_size (LeoditWolfEstimator.model s2) ->
  fst (LeoditWolfEstimator.estimate_parameters X s1)
  = fst (LeoditWolfEstimator.estimate_parameters X s2).
Proof.
  intros Ha Hb. unfold LeoditWolfEstimator.estimate_parameters.
  rewrite !fit_unfold, Ha, Hb.
  destruct (block_size _ <? 1)%Z; [reflexivity|].
  destruct (check_array X true) as [X'|e1]; [|reflexivity].
  cbv zeta.
  destruct (ledoit_wolf _ _) as [cs|e2]; [|reflexivity].
  destruct (check_array (fst cs) true); reflexivity.
Qed.

(* ----------------------------------------------------------------- *)
(** ** Validation (C2) *)

(** C2, as stated, fails: on a matrix with a [NaN] entry and on a matrix
    without rows [MaxLikelihoodEstimator] returns a pair instead of
    failing, and the shrinkage estimator fails with scikit-learn's
    [ValueError], not with [InvalidInputError]. *)
Lemma invalid_input_not_rejected_with_InvalidInputError :
  invalid Examples.with_nan /\ invalid Examples.no_rows
  /\ is_ok (fst (estimate_parameters from_2_2 Examples.with_nan
                   (MLE MaxLikelihoodEstimator.__init__))) = true
  /\ is_ok (fst (estimate_parameters upto_2_1 Examples.with_nan
                   (MLE MaxLikelihoodEstimator.__init__))) = true
  /\ is_ok (fst (estimate_parameters from_2_2 Examples.no_rows
                   (MLE MaxLikelihoodEstimator.__init__))) = true
  /\ is_ok (fst (estimate_parameters upto_2_1 Examples.no_rows
                   (MLE MaxLikelihoodEstimator.__init__))) = true
  /\ fst (estimate_parameters from_2_2 Examples.with_nan
            (Shrinkage (LeoditWolfEstimator.__init__ None)))
     = Raise (ValueError "Input contains NaN or infinity.").
Proof.
  split; [right; right; reflexivity|].
  split; [left; reflexivity|].
  repeat split.
Qed.

(** C2, amended.  [MaxLikelihoodEstimator.estimate_parameters] validates
    nothing: it returns a pair for every matrix.  The shrinkage estimator
    fails with [ValueError] (scikit-learn's input validation) whenever the
    matrix is empty or holds a non-finite value, and the estimator is then
    as it was before the call: nothing was estimated.  No estimator ever
    fails with [InvalidInputError]. *)
Theorem estimators_validation (np : release) (features : matrix) :
  (forall self,
      exists r,
        MaxLikelihoodEstimator.estimate_parameters np features self
        = (Ok r, self))
  /\ (invalid features ->
      forall self,
      exists e,
        LeoditWolfEstimator.estimate_parameters features self
        = (Raise e, self)
        /\ is_value_error e = true)
  /\ (forall estimator,
        fst (estimate_parameters np features estimator)
        <> Raise InvalidInputError).
Proof.
  split; [|split].
  - intros self.
    unfold MaxLikelihoodEstimator.estimate_parameters, ret. eauto.
  - intros Hinv [m]. unfold LeoditWolfEstimator.estimate_parameters.
    cbn [LeoditWolfEstimator.model].
    destruct (fit_invalid m Hinv) as (e & -> & He). eauto.
  - intros [self|[m]]; unfold estimate_parameters.
    + unfold MaxLikelihoodEstimator.estimate_parameters, ret. discriminate.
    + unfold LeoditWolfEstimator.estimate_parameters.
      cbn [LeoditWolfEstimator.model].
      destruct (fit features m) as [[r|e] m'] eqn:E.
      * destruct (location_ r), (covariance_ r); discriminate.
      * apply fit_Raise in E. cbn [fst]. intros H. inversion H. subst.
        discriminate.
Qed.

Lemma estimators_validation_witness :
  invalid Examples.with_nan /\
  exists e,
    LeoditWolfEstimator.estimate_parameters Examples.with_nan
      (LeoditWolfEstimator.__init__ None)
    = (Raise e, LeoditWolfEstimator.__init__ None)
    /\ is_value_error e = true.
Proof.
  assert (H : invalid Examples.with_nan) by (right; right; reflexivity).
  split; [exact H|].
  exact (proj1 (proj2 (estimators_validation from_2_2 Examples.with_nan))
           H (LeoditWolfEstimator.__init__ None)).
Defined.

(* ----------------------------------------------------------------- *)
(** ** State carried by the estimators (C4) *)

(** C4, as stated, fails: [estimate_parameters] of the shrinkage estimator
    fits the scikit-learn model the estimator owns, in place; after the
    call the estimator holds the fitted attributes it did not hold
    before. *)
Lemma shrinkage_estimator_is_modified :
  let before := LeoditWolfEstimator.__init__ None in
  let after :=
    snd (LeoditWolfEstimator.estimate_parameters Examples.three_by_two
           before) in
  after <> before
  /\ n_features_in_ (LeoditWolfEstimator.model before) = None
  /\ n_features_in_ (LeoditWolfEstimator.model after) = Some 2
  /\ location_ (LeoditWolfEstimator.model before) = None
  /\ option_map (same_vector [Fin (Q2Qc (8 # 3)); Fin (Q2Qc (16 # 3))])
       (location_ (LeoditWolfEstimator.model after))
     = Some true.
Proof.
  intros before after.
  assert (Hn : n_features_in_ (LeoditWolfEstimator.model after) = Some 2)
    by (vm_compute; reflexivity).
  split.
  - intros E. rewrite E in Hn. discriminate Hn.
  - split; [reflexivity|]. split; [exact Hn|]. split; [reflexivity|].
    vm_compute. reflexivity.
Qed.

(** C4, amended.  [MaxLikelihoodEstimator.estimate_parameters] leaves its
    estimator unchanged.  The shrinkage estimator's call overwrites the
    fitted attributes of the model it owns but never its constructor
    parameters, and what a call returns depends on those parameters and on
    the input matrix only: it is the same after any earlier call as
    before it, so two calls with identical input return identical
    results. *)
Theorem estimators_deterministic
  (np : release) (features earlier : matrix) (estimator : GaussianEstimator) :
  (forall self,
      snd (estimate_parameters np features (MLE self)) = MLE self)
  /\ configuration (snd (estimate_parameters np features estimator))
     = configuration estimator
  /\ fst (estimate_parameters np features
            (snd (estimate_parameters np earlier estimator)))
     = fst (estimate_parameters np features estimator)
  /\ fst (estimate_parameters np features
            (snd (estimate_parameters np features estimator)))
     = fst (estimate_parameters np features estimator).
Proof.
  assert (Hcfg : forall X,
             configuration (snd (estimate_parameters np X estimator))
             = configuration estimator).
  { intros X. destruct estimator as [self|[m]]; [reflexivity|].
    unfold estimate_parameters, LeoditWolfEstimator.estimate_parameters.
    cbn [LeoditWolfEstimator.model].
    destruct (fit_parameters X m) as (Hs & Ha & Hb).
    destruct (fit X m) as [[r|e] m']; cbn [snd] in *.
    - destruct (location_ r), (covariance_ r); cbn; congruence.
    - cbn; congruence. }
  assert (Hres : forall X,
             fst (estimate_parameters np features
                    (snd (estimate_parameters np X estimator)))
             = fst (estimate_parameters np features estimator)).
  { intros X. specialize (Hcfg X).
    destruct estimator as [self|s]; [reflexivity|].
    remember (snd (estimate_parameters np X (Shrinkage s))) as est' eqn:E.
    destruct est' as [self'|s']; [discriminate Hcfg|].
    cbn [configuration] in Hcfg. inversion Hcfg as [[Hs Ha Hb]].
    unfold estimate_parameters.
    pose proof (shrinkage_result_parameters features s' s Ha Hb) as H.
    destruct (LeoditWolfEstimator.estimate_parameters features s'),
             (LeoditWolfEstimator.estimate_parameters features s).
    exact H. }
  split; [reflexivity|]. split; [apply Hcfg|]. split; apply Hres.
Qed.

(* ----------------------------------------------------------------- *)
(** ** Sums over a commutative monoid *)

Section BigFacts.

Variable A : Type.
Variable op : A -> A -> A.
Variable unit : A.
Hypothesis op_comm : forall a b, op a b = op b a.
Hypothesis op_assoc : forall a b c, op a (op b c) = op (op a b) c.
Hypothesis op_unit_l : forall a, op unit a = a.

Local Abbreviation sum := (big op unit).
Local Abbreviation sum_over := (big_range op unit).

Lemma op_unit_r (a : A) : op a unit = a.
Proof. rewrite op_comm. apply op_unit_l. Qed.

Lemma big_app (l1 l2 : list A) : sum (l1 ++ l2) = op (sum l1) (sum l2).
Proof.
  induction l1 as [|a l1 IH]; simpl.
  - symmetry. apply op_unit_l.
  - fold (sum (l1 ++ l2)). fold (sum l1). rewrite IH. apply op_assoc.
Qed.

Lemma big_range_ext (lo n : nat) (f g : nat -> A) :
  (forall i, lo <= i < lo + n -> f i = g i) ->
  sum_over lo n f = sum_over lo n g.
Proof. intros H. unfold big_range. f_equal. apply map_seq_ext, H. Qed.

Lemma big_range_split (lo a b : nat) (f : nat -> A) :
  sum_over lo (a + b) f = op (sum_over lo a f) (sum_over (lo + a) b f).
Proof. unfold big_range. rewrite seq_app, map_app. apply big_app. Qed.

Lemma big_range_last (lo n : nat) (f : nat -> A) :
  sum_over lo (S n) f = op (sum_over lo n f) (f (lo + n)).
Proof.
  replace (S n) with (n + 1) by lia. rewrite big_range_split.
  f_equal. unfold big_range. simpl. apply op_unit_r.
Qed.

Lemma seq_as_shift (lo n : nat) :
  seq lo n = map (fun i => lo + i) (seq 0 n).
Proof.
  revert lo. induction n as [|n IH]; intros lo; simpl.
  - reflexivity.
  - rewrite Nat.add_0_r. f_equal.
    rewrite <- (seq_shift n 0), map_map, (IH (S lo)).
    apply map_ext. intros i. lia.
Qed.

Lemma big_range_shift (lo n : nat) (f : nat -> A) :
  sum_over 0 n (fun i => f (lo + i)) = sum_over lo n f.
Proof.
  unfold big_range. rewrite (seq_as_shift lo n), map_map. reflexivity.
Qed.

Lemma big_map_op {I} (l : list I) (f g : I -> A) :
  sum (map (fun i => op (f i) (g i)) l) = op (sum (map f l)) (sum (map g l)).
Proof.
  induction l as [|a l IH]; simpl.
  - symmetry. apply op_unit_l.
  - fold (sum (map (fun i => op (f i) (g i)) l)).
    fold (sum (map f l)). fold (sum (map g l)). rewrite IH.
    rewrite <- !op_assoc. f_equal.
    rewrite !op_assoc. f_equal. apply op_comm.
Qed.

Lemma big_map_unit {I} (l : list I) : sum (map (fun _ => unit) l) = unit.
Proof.
  induction l as [|a l IH]; simpl; [reflexivity|].
  fold (sum (map (fun _ : I => unit) l)). rewrite IH. apply op_unit_l.
Qed.

Lemma big_map_exchange {I J} (l1 : list I) (l2 : list J) (f : I -> J -> A) :
  sum (map (fun i => sum (map (f i) l2)) l1)
  = sum (map (fun j => sum (map (fun i => f i j) l1)) l2).
Proof.
  induction l1 as [|a l1 IH]; simpl.
  - symmetry. apply big_map_unit.
  - fold (sum (map (f a) l2)).
    fold (sum (map (fun i => sum (map (f i) l2)) l1)).
    rewrite IH. symmetry. apply (big_map_op l2 (f a)).
Qed.

Lemma big_range_op (lo n : nat) (f g : nat -> A) :
  sum_over lo n (fun i => op (f i) (g i))
  = op (sum_over lo n f) (sum_over lo n g).
Proof. apply big_map_op. Qed.

Lemma big_range_exchange (lo1 n1 lo2 n2 : nat) (f : nat -> nat -> A) :
  sum_over lo1 n1 (fun i => sum_over lo2 n2 (fun j => f i j))
  = sum_over lo2 n2 (fun j => sum_over lo1 n1 (fun i => f i j)).
Proof. apply big_map_exchange. Qed.

(** Summing block by block is summing. *)
Lemma big_blocks (bs ns : nat) (f : nat -> A) :
  sum_over 0 ns (fun i => sum_over (bs * i) bs f) = sum_over 0 (bs * ns) f.
Proof.
  induction ns as [|ns IH].
  - rewrite Nat.mul_0_r. reflexivity.
  - rewrite big_range_last, IH. simpl.
    replace (bs * S ns) with (bs * ns + bs) by lia.
    rewrite big_range_split. reflexivity.
Qed.

(** An accumulating loop adds the sum of what each turn adds. *)
Lemma fold_left_acc {I} (l : list I) (f : I -> A) (a : A) :
  fold_left (fun acc i => op acc (f i)) l a = op a (sum (map f l)).
Proof.
  revert a. induction l as [|i l IH]; intros a; simpl.
  - symmetry. apply op_unit_r.
  - rewrite IH. fold (sum (map f l)). symmetry. apply op_assoc.
Qed.

Lemma for_range_acc (n : nat) (f : nat -> A) (a : A) :
  for_range n (fun i acc => op acc (f i)) a = op a (sum_over 0 n f).
Proof. apply fold_left_acc. Qed.

Lemma for_range_acc2 (n : nat) (f g : nat -> A) (a b : A) :
  for_range n (fun i '(x, y) => (op x (f i), op y (g i))) (a, b)
  = (op a (sum_over 0 n f), op b (sum_over 0 n g)).
Proof.
  unfold for_range, big_range. generalize (seq 0 n) as l. intros l.
  revert a b. induction l as [|i l IH]; intros a b; simpl.
  - rewrite !op_unit_r. reflexivity.
  - rewrite IH. fold (sum (map f l)). fold (sum (map g l)).
    rewrite <- !op_assoc. reflexivity.
Qed.

End BigFacts.

Lemma for_range_ext {S} (n : nat) (body1 body2 : nat -> S -> S) (s : S) :
  (forall i t, i < n -> body1 i t = body2 i t) ->
  for_range n body1 s = for_range n body2 s.
Proof.
  intros H. unfold for_range.
  assert (G : forall l t, (forall i, In i l -> i < n) ->
              fold_left (fun acc i => body1 i acc) l t
              = fold_left (fun acc i => body2 i acc) l t).
  { induction l as [|i l IH]; intros t Hl; simpl; [reflexivity|].
    rewrite H by (apply Hl; left; reflexivity).
    apply IH. intros j Hj. apply Hl. right. exact Hj. }
  apply G. intros i Hi. apply in_seq in Hi. lia.
Qed.

(* ----------------------------------------------------------------- *)
(** ** The blocked sums of [ledoit_wolf_shrinkage] do not depend on the
       block size *)

Ltac float_monoid :=
  first [exact fadd_comm | exact fadd_assoc | exact fadd_zero_l].

Lemma sum_range_split (lo a b : nat) (f : nat -> float) :
  sum_range lo (a + b) f = fadd (sum_range lo a f) (sum_range (lo + a) b f).
Proof. unfold sum_range. apply big_range_split; float_monoid. Qed.

Lemma sum_range_shift (lo n : nat) (f : nat -> float) :
  sum_range 0 n (fun i => f (lo + i)) = sum_range lo n f.
Proof. unfold sum_range. apply big_range_shift. Qed.

Lemma sum_range_fadd (lo n : nat) (f g : nat -> float) :
  sum_range lo n (fun i => fadd (f i) (g i))
  = fadd (sum_range lo n f) (sum_range lo n g).
Proof. unfold sum_range. apply big_range_op; float_monoid. Qed.

Lemma sum_range_exchange (lo1 n1 lo2 n2 : nat) (f : nat -> nat -> float) :
  sum_range lo1 n1 (fun i => sum_range lo2 n2 (fun j => f i j))
  = sum_range lo2 n2 (fun j => sum_range lo1 n1 (fun i => f i j)).
Proof. unfold sum_range. apply big_range_exchange; float_monoid. Qed.

Lemma sum_range_blocks (bs ns : nat) (f : nat -> float) :
  sum_range 0 ns (fun i => sum_range (bs * i) bs f) = sum_range 0 (bs * ns) f.
Proof. unfold sum_range. apply big_blocks; float_monoid. Qed.

Lemma rect_ext (F G : nat -> nat -> float) (r rl c cl : nat) :
  (forall j k, r <= j < r + rl -> c <= k < c + cl -> F j k = G j k) ->
  rect F r rl c cl = rect G r rl c cl.
Proof.
  intros H. unfold rect. apply sum_range_ext. intros j Hj.
  apply sum_range_ext. intros k Hk. apply H; assumption.
Qed.

Lemma rect_split_cols (F : nat -> nat -> float) (r rl c a b : nat) :
  rect F r rl c (a + b)
  = fadd (rect F r rl c a) (rect F r rl (c + a) b).
Proof.
  unfold rect. rewrite <- sum_range_fadd.
  apply sum_range_ext. intros j _. apply sum_range_split.
Qed.

Lemma rect_split_rows (F : nat -> nat -> float) (r a b c cl : nat) :
  rect F r (a + b) c cl
  = fadd (rect F r a c cl) (rect F (r + a) b c cl).
Proof. unfold rect. apply sum_range_split. Qed.

Lemma rect_blocks_cols (F : nat -> nat -> float) (r rl bs ns : nat) :
  sum_range 0 ns (fun j => rect F r rl (bs * j) bs) = rect F r rl 0 (bs * ns).
Proof.
  unfold rect. rewrite sum_range_exchange.
  apply sum_range_ext. intros j _.
  apply (sum_range_blocks bs ns (fun k => F j k)).
Qed.

Lemma rect_blocks_rows (F : nat -> nat -> float) (c cl bs ns : nat) :
  sum_range 0 ns (fun i => rect F (bs * i) bs c cl) = rect F 0 (bs * ns) c cl.
Proof.
  unfold rect.
  apply (sum_range_blocks bs ns (fun j => sum_range c cl (fun k => F j k))).
Qed.

(** The order in which [ledoit_wolf_shrinkage] visits the blocks. *)
Lemma rect_by_blocks (F : nat -> nat -> float) (bs ns p : nat) :
  bs * ns <= p ->
  let t := bs * ns in
  let tl := p - bs * ns in
  fadd
    (fadd
       (fadd zero
          (sum_range 0 ns (fun i =>
             fadd (sum_range 0 ns (fun j => rect F (bs * i) bs (bs * j) bs))
                  (rect F (bs * i) bs t tl))))
       (sum_range 0 ns (fun j => rect F t tl (bs * j) bs)))
    (rect F t tl t tl)
  = rect F 0 p 0 p.
Proof.
  intros Hp t tl.
  assert (Ep : p = t + tl) by (unfold t, tl; lia).
  assert (Hrow : forall r rl,
             fadd (sum_range 0 ns (fun j => rect F r rl (bs * j) bs))
                  (rect F r rl t tl)
             = rect F r rl 0 p).
  { intros r rl. rewrite rect_blocks_cols. fold t.
    rewrite Ep. symmetry. apply (rect_split_cols F r rl 0 t tl). }
  rewrite fadd_zero_l.
  rewrite (sum_range_ext _ (fun i => rect F (bs * i) bs 0 p))
    by (intros i _; apply Hrow).
  rewrite rect_blocks_rows. fold t.
  rewrite <- fadd_assoc, Hrow.
  rewrite Ep at 3. symmetry. apply (rect_split_rows F 0 t tl 0 p).
Qed.

(** A block of [beta_] or [delta_] is the sum over a rectangle. *)
Lemma getitem_slice_rows (M : matrix) (a b i j : nat) :
  a <= b <= shape0 M -> i < b - a -> j < shape1 M ->
  getitem (slice_rows M a b) i j = getitem M (a + i) j.
Proof.
  intros Hab Hi Hj. unfold slice_rows. rewrite !Nat.min_l by lia.
  rewrite getitem_tabulate by assumption. reflexivity.
Qed.

Lemma getitem_slice_cols (M : matrix) (a b i j : nat) :
  a <= b <= shape1 M -> i < shape0 M -> j < b - a ->
  getitem (slice_cols M a b) i j = getitem M i (a + j).
Proof.
  intros Hab Hi Hj. unfold slice_cols. rewrite !Nat.min_l by lia.
  rewrite getitem_tabulate by assumption. reflexivity.
Qed.

Lemma shape_slice_rows (M : matrix) (a b : nat) :
  a <= b <= shape0 M ->
  shape0 (slice_rows M a b) = b - a /\ shape1 (slice_rows M a b) = shape1 M.
Proof.
  intros H. unfold slice_rows. rewrite !Nat.min_l by lia. split; reflexivity.
Qed.

Lemma shape_slice_cols (M : matrix) (a b : nat) :
  a <= b <= shape1 M ->
  shape0 (slice_cols M a b) = shape0 M /\ shape1 (slice_cols M a b) = b - a.
Proof.
  intros H. unfold slice_cols. rewrite !Nat.min_l by lia. split; reflexivity.
Qed.

Lemma dot_slices (X : matrix) (a b c d j k : nat) :
  a <= b <= shape1 X -> c <= d <= shape1 X -> j < b - a -> k < d - c ->
  getitem (dot (slice_rows (transpose X) a b) (slice_cols X c d)) j k
  = gram X (a + j) (c + k).
Proof.
  intros Hab Hcd Hj Hk. unfold dot.
  destruct (shape_slice_rows (transpose X) (a:=a) (b:=b) Hab) as [R0 R1].
  destruct (shape_slice_cols X (a:=c) (b:=d) Hcd) as [C0 C1].
  rewrite R0, R1, C1.
  rewrite getitem_tabulate by assumption.
  change (shape1 (transpose X)) with (shape0 X).
  unfold gram. apply sum_range_ext. intros i Hi.
  rewrite getitem_slice_rows by (assumption || (simpl; lia)).
  rewrite getitem_transpose by lia.
  rewrite getitem_slice_cols by (assumption || lia).
  reflexivity.
Qed.

Lemma beta_block_rect (X2 : matrix) (a b c d : nat) :
  a <= b <= shape1 X2 -> c <= d <= shape1 X2 ->
  beta_block X2 (a, Some b) (c, Some d)
  = rect (gram X2) a (b - a) c (d - c).
Proof.
  intros Hab Hcd. unfold beta_block, np_sum, rect. cbn [fst snd stop_of].
  change (shape0 (dot ?u ?v)) with (shape0 u).
  change (shape1 (dot ?u ?v)) with (shape1 v).
  destruct (shape_slice_rows (transpose X2) (a:=a) (b:=b) Hab) as [R0 R1].
  destruct (shape_slice_cols X2 (a:=c) (b:=d) Hcd) as [C0 C1].
  rewrite R0, C1.
  rewrite <- (sum_range_shift a).
  apply sum_range_ext. intros j Hj.
  rewrite <- (sum_range_shift c).
  apply sum_range_ext. intros k Hk.
  apply dot_slices; lia.
Qed.

Lemma delta_block_rect (X : matrix) (a b c d : nat) :
  a <= b <= shape1 X -> c <= d <= shape1 X ->
  delta_block X (a, Some b) (c, Some d)
  = rect (fun j k => fmul (gram X j k) (gram X j k)) a (b - a) c (d - c).
Proof.
  intros Hab Hcd. unfold delta_block, np_sum, rect. cbn [fst snd stop_of].
  change (shape0 (square ?u)) with (shape0 u).
  change (shape1 (square ?u)) with (shape1 u).
  change (shape0 (dot ?u ?v)) with (shape0 u).
  change (shape1 (dot ?u ?v)) with (shape1 v).
  destruct (shape_slice_rows (transpose X) (a:=a) (b:=b) Hab) as [R0 R1].
  destruct (shape_slice_cols X (a:=c) (b:=d) Hcd) as [C0 C1].
  rewrite R0, C1.
  rewrite <- (sum_range_shift a).
  apply sum_range_ext. intros j Hj.
  rewrite <- (sum_range_shift c
                (d - c) (fun k => fmul (gram X (a + j) k) (gram X (a + j) k))).
  apply sum_range_ext. intros k Hk.
  unfold square at 1.
  change (shape0 (dot ?u ?v)) with (shape0 u).
  change (shape1 (dot ?u ?v)) with (shape1 v).
  rewrite R0, C1.
  rewrite getitem_tabulate by lia.
  rewrite dot_slices by lia. reflexivity.
Qed.

Lemma for_range_fadd2 (n : nat) (f g : nat -> float) (a b : float) :
  for_range n (fun i '(x, y) => (fadd x (f i), fadd y (g i))) (a, b)
  = (fadd a (sum_range 0 n f), fadd b (sum_range 0 n g)).
Proof. unfold sum_range. apply for_range_acc2; float_monoid. Qed.

(** Both accumulators, once the last block is added, are sums over all
    pairs of columns, whatever the block size. *)
Lemma blocked_sums_total (X X2 : matrix) (bs ns : nat) :
  shape1 X2 = shape1 X -> bs * ns <= shape1 X ->
  let p := shape1 X in
  let tail := (bs * ns, @None nat) in
  fadd (fst (blocked_sums X X2 bs ns)) (beta_block X2 tail tail)
  = rect (gram X2) 0 p 0 p
  /\ fadd (snd (blocked_sums X X2 bs ns)) (delta_block X tail tail)
     = rect (fun j k => fmul (gram X j k) (gram X j k)) 0 p 0 p.
Proof.
  intros H2 Hp p tail.
  set (Fb := gram X2).
  set (Fd := fun j k => fmul (gram X j k) (gram X j k)).
  set (t := bs * ns). set (tl := p - bs * ns).
  (* every block as a rectangle *)
  assert (Bb : forall i j, i < ns -> j < ns ->
             beta_block X2 (bs * i, Some (bs * (i + 1)))
               (bs * j, Some (bs * (j + 1)))
             = rect Fb (bs * i) bs (bs * j) bs).
  { intros i j Hi Hj. rewrite beta_block_rect by (rewrite H2; nia).
    f_equal; nia. }
  assert (Bd : forall i j, i < ns -> j < ns ->
             delta_block X (bs * i, Some (bs * (i + 1)))
               (bs * j, Some (bs * (j + 1)))
             = rect Fd (bs * i) bs (bs * j) bs).
  { intros i j Hi Hj. rewrite delta_block_rect by nia. f_equal; nia. }
  assert (Tb : forall i, i < ns ->
             beta_block X2 (bs * i, Some (bs * (i + 1))) tail
             = rect Fb (bs * i) bs t tl).
  { intros i Hi.
    change (beta_block X2 (bs * i, Some (bs * (i + 1))) tail)
      with (beta_block X2 (bs * i, Some (bs * (i + 1)))
              (t, Some (shape1 X2))).
    rewrite beta_block_rect by (rewrite H2; unfold t; nia).
    unfold tl, p. rewrite H2. f_equal; nia. }
  assert (Td : forall i, i < ns ->
             delta_block X (bs * i, Some (bs * (i + 1))) tail
             = rect Fd (bs * i) bs t tl).
  { intros i Hi.
    change (delta_block X (bs * i, Some (bs * (i + 1))) tail)
      with (delta_block X (bs * i, Some (bs * (i + 1)))
              (t, Some (shape1 X))).
    rewrite delta_block_rect by (unfold t; nia).
    unfold tl, p. f_equal; nia. }
  assert (Rb : forall j, j < ns ->
             beta_block X2 tail (bs * j, Some (bs * (j + 1)))
             = rect Fb t tl (bs * j) bs).
  { intros j Hj.
    change (beta_block X2 tail (bs * j, Some (bs * (j + 1))))
      with (beta_block X2 (t, Some (shape1 X2))
              (bs * j, Some (bs * (j + 1)))).
    rewrite beta_block_rect by (rewrite H2; unfold t; nia).
    unfold tl, p. rewrite H2. f_equal; nia. }
  assert (Rd : forall j, j < ns ->
             delta_block X tail (bs * j, Some (bs * (j + 1)))
             = rect Fd t tl (bs * j) bs).
  { intros j Hj.
    change (delta_block X tail (bs * j, Some (bs * (j + 1))))
      with (delta_block X (t, Some (shape1 X))
              (bs * j, Some (bs * (j + 1)))).
    rewrite delta_block_rect by (unfold t; nia).
    unfold tl, p. f_equal; nia. }
  assert (Cb : beta_block X2 tail tail = rect Fb t tl t tl).
  { change (beta_block X2 tail tail)
      with (beta_block X2 (t, Some (shape1 X2)) (t, Some (shape1 X2))).
    rewrite beta_block_rect by (rewrite H2; unfold t; nia).
    unfold tl, p. rewrite H2. reflexivity. }
  assert (Cd : delta_block X tail tail = rect Fd t tl t tl).
  { change (delta_block X tail tail)
      with (delta_block X (t, Some (shape1 X)) (t, Some (shape1 X))).
    rewrite delta_block_rect by (unfold t; nia).
    reflexivity. }
  (* the loops *)
  unfold blocked_sums. cbv zeta. fold tail.
  rewrite (@for_range_ext _ ns _
             (fun i '(x, y) =>
                (fadd x (fadd (sum_range 0 ns
                                 (fun j => rect Fb (bs * i) bs (bs * j) bs))
                              (rect Fb (bs * i) bs t tl)),
                 fadd y (fadd (sum_range 0 ns
                                 (fun j => rect Fd (bs * i) bs (bs * j) bs))
                              (rect Fd (bs * i) bs t tl))))).
  2:{ intros i [x y] Hi. rewrite for_range_fadd2.
      rewrite (Tb i Hi), (Td i Hi), <- !fadd_assoc.
      f_equal; f_equal; f_equal; apply sum_range_ext; intros j Hj;
        [apply Bb | apply Bd]; lia. }
  rewrite for_range_fadd2.
  rewrite (@for_range_ext _ ns _
             (fun j '(x, y) =>
                (fadd x (rect Fb t tl (bs * j) bs),
                 fadd y (rect Fd t tl (bs * j) bs)))).
  2:{ intros j [x y] Hj. rewrite (Rb j Hj), (Rd j Hj). reflexivity. }
  rewrite for_range_fadd2. cbn [fst snd]. rewrite Cb, Cd.
  split; apply rect_by_blocks; exact Hp.
Qed.

(* ----------------------------------------------------------------- *)
(** ** Sums and order of rationals *)

Import Exact.

Ltac qc_to_q :=
  unfold Qcle, Qclt, Qcminus, Qcdiv, Qcinv, Qcplus, Qcmult, Qcopp, Q2Qc in *;
  cbn [this] in *;
  rewrite ?Qred_correct in *; unfold inject_Z in *.

Ltac qc_monoid :=
  first [exact Qcplus_comm | exact Qcplus_assoc | exact Qcplus_0_l].

Lemma qsum_range_ext (lo n : nat) (f g : nat -> Qc) :
  (forall i, lo <= i < lo + n -> f i = g i) ->
  qsum_range lo n f = qsum_range lo n g.
Proof. intros H. unfold qsum_range. apply big_range_ext, H. Qed.

Lemma qsum_range_last (lo n : nat) (f : nat -> Qc) :
  qsum_range lo (S n) f = (qsum_range lo n f + f (lo + n)%nat)%Qc.
Proof. unfold qsum_range. apply big_range_last; qc_monoid. Qed.

Lemma qsum_range_0 (lo : nat) (f : nat -> Qc) : qsum_range lo 0 f = 0%Qc.
Proof. reflexivity. Qed.

Lemma qsum_range_plus (lo n : nat) (f g : nat -> Qc) :
  qsum_range lo n (fun i => f i + g i)%Qc
  = (qsum_range lo n f + qsum_range lo n g)%Qc.
Proof. unfold qsum_range. apply big_range_op; qc_monoid. Qed.


Lemma qsum_range_scale (lo n : nat) (c : Qc) (f : nat -> Qc) :
  qsum_range lo n (fun i => c * f i)%Qc = (c * qsum_range lo n f)%Qc.
Proof.
  induction n as [|n IH].
  - rewrite !qsum_range_0. ring.
  - rewrite !qsum_range_last, IH. ring.
Qed.

Lemma qsum_range_scale_r (lo n : nat) (c : Qc) (f : nat -> Qc) :
  qsum_range lo n (fun i => f i * c)%Qc = (qsum_range lo n f * c)%Qc.
Proof.
  induction n as [|n IH].
  - rewrite !qsum_range_0. ring.
  - rewrite !qsum_range_last, IH. ring.
Qed.


Lemma Qc_square_nonneg (a : Qc) : (0 <= a * a)%Qc.
Proof. qc_to_q. nra. Qed.


Lemma Qc_mult_nonneg (a b : Qc) : (0 <= a -> 0 <= b -> 0 <= a * b)%Qc.
Proof. intros Ha Hb. qc_to_q. nra. Qed.

Lemma Qc_div_nonneg (a b : Qc) : (0 <= a -> 0 < b -> 0 <= a / b)%Qc.
Proof.
  intros Ha Hb. apply Qc_mult_nonneg; [exact Ha|].
  apply Qclt_le_weak, Qcinv_pos, Hb.
Qed.


Lemma qsum_range_le (lo n : nat) (f g : nat -> Qc) :
  (forall i, lo <= i < lo + n -> (f i <= g i)%Qc) ->
  (qsum_range lo n f <= qsum_range lo n g)%Qc.
Proof.
  induction n as [|n IH]; intros H.
  - apply Qcle_refl.
  - rewrite !qsum_range_last. apply Qcplus_le_compat.
    + apply IH. intros i Hi. apply H. lia.
    + apply H. lia.
Qed.



Lemma qnat_S (n : nat) : qnat (S n) = (qnat n + 1)%Qc.
Proof.
  apply Qc_is_canon. unfold qnat. qc_to_q.
  rewrite Nat2Z.inj_succ. unfold Qeq, Qplus. simpl. lia.
Qed.

Lemma qnat_mul (n k : nat) : qnat (n * k) = (qnat n * qnat k)%Qc.
Proof.
  apply Qc_is_canon. unfold qnat. qc_to_q.
  rewrite Nat2Z.inj_mul. unfold Qeq, Qmult. simpl. lia.
Qed.

Lemma qnat_0 : qnat 0 = 0%Qc.
Proof. reflexivity. Qed.

Lemma qnat_1 : qnat 1 = 1%Qc.
Proof. reflexivity. Qed.

(** [sum (a - y_i)^2 >= 0], expanded. *)
Lemma sum_square_distance (n : nat) (y : nat -> Qc) (a : Qc) :
  (0 <= qnat n * (a * a)
        - Q2Qc (inject_Z 2) * a * qsum_range 0 n y
        + qsum_range 0 n (fun i => y i * y i))%Qc.
Proof.
  induction n as [|n IH].
  - rewrite !qsum_range_0, qnat_0. qc_to_q. lra.
  - rewrite !qsum_range_last, qnat_S. simpl.
    pose proof (Qc_square_nonneg (a - y n)) as H.
    qc_to_q. lra.
Qed.

(** The square of a sum of [n] terms is at most [n] times the sum of the
    squares. *)
Lemma square_of_sum (n : nat) (y : nat -> Qc) :
  (qsum_range 0 n y * qsum_range 0 n y
   <= qnat n * qsum_range 0 n (fun i => y i * y i))%Qc.
Proof.
  induction n as [|n IH].
  - rewrite !qsum_range_0, qnat_0. qc_to_q. lra.
  - rewrite !qsum_range_last, qnat_S. simpl.
    pose proof (sum_square_distance n y (y n)) as H.
    qc_to_q. lra.
Qed.

(* ----------------------------------------------------------------- *)
(** ** Finite arrays compute the exact formulas *)

Lemma sum_range_Fin (lo n : nat) (f : nat -> float) (g : nat -> Qc) :
  (forall i, lo <= i < lo + n -> f i = Fin (g i)) ->
  sum_range lo n f = Fin (qsum_range lo n g).
Proof.
  intros H. rewrite (@sum_range_ext f (fun i => Fin (g i)) lo n H).
  unfold sum_range, qsum_range, big_range, big.
  induction (seq lo n) as [|i l IH]; simpl; [reflexivity|].
  rewrite IH. reflexivity.
Qed.

Lemma fsum_Fin (lo n : nat) (g : nat -> Qc) :
  fsum (map (fun i => Fin (g i)) (seq lo n)) = Fin (qsum_range lo n g).
Proof. apply (@sum_range_Fin lo n (fun i => Fin (g i))). reflexivity. Qed.

Lemma fdiv_of_nat (a : Qc) (n : nat) :
  1 <= n -> fdiv (Fin a) (of_nat n) = Fin (a / qnat n).
Proof. intros H. rewrite of_nat_Fin. apply fdiv_Fin, qnat_neq0. lia. Qed.

Lemma getitem_to_matrix (n k : nat) (c : nat -> nat -> Qc) (i j : nat) :
  i < n -> j < k -> getitem (to_matrix n k c) i j = Fin (c i j).
Proof.
  intros Hi Hj. unfold to_matrix.
  rewrite getitem_tabulate by assumption. reflexivity.
Qed.

Lemma all_finite_to_matrix (n k : nat) (c : nat -> nat -> Qc) :
  all_finite (to_matrix n k c) = true.
Proof.
  unfold all_finite, to_matrix, tabulate. simpl.
  apply forallb_forall. intros r Hr. apply in_map_iff in Hr.
  destruct Hr as (i & <- & _).
  apply forallb_forall. intros x Hx. apply in_map_iff in Hx.
  destruct Hx as (j & <- & _). reflexivity.
Qed.

Lemma finite_getitem (X : matrix) (i j : nat) :
  well_formed X -> all_finite X = true ->
  i < shape0 X -> j < shape1 X ->
  getitem X i j = Fin (entry X i j).
Proof.
  intros Hw Hf Hi Hj. destruct (well_formed_inv Hw) as [H0 Hr].
  assert (Hrow : In (nth i (data X) []) (data X)) by (apply nth_In; lia).
  assert (Hx : In (getitem X i j) (nth i (data X) [])).
  { apply nth_In. rewrite (Hr _ Hrow). exact Hj. }
  unfold all_finite in Hf. rewrite forallb_forall in Hf.
  specialize (Hf _ Hrow). rewrite forallb_forall in Hf.
  specialize (Hf _ Hx). unfold entry.
  destruct (getitem X i j); try discriminate Hf. reflexivity.
Qed.

Lemma finite_matrix_exact (X : matrix) :
  well_formed X -> all_finite X = true ->
  X = to_matrix (shape0 X) (shape1 X) (entry X).
Proof.
  intros Hw Hf. rewrite (tabulate_getitem Hw) at 1.
  apply tabulate_ext. intros i j Hi Hj. apply finite_getitem; assumption.
Qed.

Lemma row_average_exact (X : matrix) :
  well_formed X -> all_finite X = true -> 1 <= shape0 X ->
  row_average X = map (fun j => Fin (mean X j)) (seq 0 (shape1 X)).
Proof.
  intros Hw Hf Hn. unfold row_average. apply map_seq_ext. intros j Hj.
  rewrite (@sum_range_Fin 0 (shape0 X) _ (fun i => entry X i j))
    by (intros i Hi; apply finite_getitem; assumption || lia).
  apply fdiv_of_nat, Hn.
Qed.

(** [X - X.mean(0)] holds the centred samples. *)
Lemma sub_row_exact (X : matrix) :
  well_formed X -> all_finite X = true -> 1 <= shape0 X ->
  sub_row X (row_average X)
  = to_matrix (shape0 X) (shape1 X) (centred X).
Proof.
  intros Hw Hf Hn. unfold sub_row, to_matrix.
  apply tabulate_ext. intros i j Hi Hj.
  rewrite (row_average_exact Hw Hf Hn).
  rewrite (nth_map_seq (fun j => Fin (mean X j)) 0 NaN Hj).
  rewrite (finite_getitem Hw Hf Hi Hj). reflexivity.
Qed.

Section CentredSamples.

Variables (n D : nat) (c : nat -> nat -> Qc).

Let Xc := to_matrix n D c.

Lemma square_to_matrix :
  square Xc = to_matrix n D (fun i j => c i j * c i j)%Qc.
Proof.
  unfold square, Xc. apply tabulate_ext. intros i j Hi Hj.
  rewrite getitem_to_matrix by assumption. reflexivity.
Qed.

Lemma gram_to_matrix (j k : nat) :
  j < D -> k < D ->
  gram Xc j k = Fin (qsum_range 0 n (fun i => c i j * c i k)%Qc).
Proof.
  intros Hj Hk. unfold gram. apply sum_range_Fin. intros i Hi.
  unfold Xc. cbn [shape0 to_matrix tabulate] in Hi.
  rewrite !getitem_to_matrix by lia. reflexivity.
Qed.

End CentredSamples.

(* ----------------------------------------------------------------- *)
(** ** The shrinkage intensity *)

Lemma block_count_fits (p : nat) (b : Z) :
  (1 <= b)%Z -> Z.to_nat b * Z.to_nat (Z.quot (Z.of_nat p) b) <= p.
Proof.
  intros Hb.
  assert (Hq : (0 <= Z.quot (Z.of_nat p) b)%Z) by (apply Z.quot_pos; lia).
  assert (Hm : (b * Z.quot (Z.of_nat p) b <= Z.of_nat p)%Z)
    by (apply Z.mul_quot_le; lia).
  rewrite <- Z2Nat.inj_mul by lia. lia.
Qed.

(** [beta] is a variance, hence not negative: the square of a mean is at
    most the mean of the squares. *)
Lemma scatter_squares_le_fourth_moments (X : matrix) :
  (scatter_squares X <= qnat (shape0 X) * fourth_moments X)%Qc.
Proof.
  unfold scatter_squares, fourth_moments.
  rewrite <- qsum_range_scale. apply qsum_range_le. intros j _.
  rewrite <- qsum_range_scale. apply qsum_range_le. intros k _.
  unfold scatter.
  rewrite (@qsum_range_ext 0 (shape0 X)
             (fun i => centred X i j * centred X i j
                       * (centred X i k * centred X i k))%Qc
             (fun i => centred X i j * centred X i k
                       * (centred X i j * centred X i k))%Qc)
    by (intros i _; ring).
  apply (square_of_sum (shape0 X)
           (fun i => centred X i j * centred X i k)%Qc).
Qed.

Lemma beta_nonneg (X : matrix) :
  1 <= shape0 X -> 1 <= shape1 X -> (0 <= beta X)%Qc.
Proof.
  intros Hn HD. unfold beta.
  assert (Pn : (0 < qnat (shape0 X))%Qc) by (apply qnat_pos; lia).
  apply Qc_mult_nonneg.
  - apply Qc_div_nonneg; [qc_to_q; lra | apply qnat_pos; nia].
  - unfold delta_.
    replace (fourth_moments X / qnat (shape0 X)
             - scatter_squares X / (qnat (shape0 X) * qnat (shape0 X)))%Qc
      with ((qnat (shape0 X) * fourth_moments X - scatter_squares X)
            / (qnat (shape0 X) * qnat (shape0 X)))%Qc
      by (field; apply Qc_pos_neq0, Pn).
    apply Qc_div_nonneg.
    + pose proof (scatter_squares_le_fourth_moments X) as H.
      qc_to_q. lra.
    + pose proof Pn as Pn'. qc_to_q. nra.
Qed.

Lemma Qc_compare_Eq (a b : Qc) : (a ?= b)%Qc = Eq -> a = b.
Proof. apply Qceq_alt. Qed.

Lemma shrinkage_select (b d : Qc) :
  (0 <= b)%Qc ->
  (if feq (py_min (Fin b) (Fin d)) zero then zero
   else fdiv (py_min (Fin b) (Fin d)) (Fin d))
  = Fin (let m := match (d ?= b)%Qc with Lt => d | _ => b end in
         match (m ?= 0)%Qc with Eq => 0%Qc | _ => (m / d)%Qc end).
Proof.
  intros Hb. cbv zeta. unfold py_min, flt, feq, cmp, zero.
  assert (Hd : forall m,
             m = match (d ?= b)%Qc with Lt => d | _ => b end ->
             (m ?= 0)%Qc <> Eq -> d <> 0%Qc).
  { intros m Hm Hne Hd0. apply Hne. apply Qceq_alt. subst d.
    revert Hm. destruct (0 ?= b)%Qc eqn:E; intros Hm; [| exact Hm |].
    - apply Qc_compare_Eq in E. congruence.
    - subst m. apply Qcle_antisym; [|exact Hb].
      apply Qcle_alt. unfold Qccompare in *.
      rewrite <- Qcompare_antisym, E. discriminate. }
  destruct (d ?= b)%Qc eqn:E.
  - destruct (b ?= 0)%Qc eqn:E0; [reflexivity| |];
      apply fdiv_Fin, (Hd b eq_refl); rewrite E0; discriminate.
  - destruct (d ?= 0)%Qc eqn:E0; [reflexivity| |];
      apply fdiv_Fin, (Hd d eq_refl); rewrite E0; discriminate.
  - destruct (b ?= 0)%Qc eqn:E0; [reflexivity| |];
      apply fdiv_Fin, (Hd b eq_refl); rewrite E0; discriminate.
Qed.

Section ShrinkageExact.

Variable X : matrix.
Hypothesis Hn : 1 <= shape0 X.
Hypothesis HD : 1 <= shape1 X.

Let n := shape0 X.
Let D := shape1 X.
Let Xc := to_matrix n D (centred X).

Lemma rect_fourth_moments :
  rect (gram (square Xc)) 0 D 0 D = Fin (fourth_moments X).
Proof.
  unfold rect, fourth_moments. apply sum_range_Fin. intros j Hj.
  apply sum_range_Fin. intros k Hk.
  unfold Xc. rewrite square_to_matrix.
  apply (gram_to_matrix n (fun i j => centred X i j * centred X i j)%Qc);
    lia.
Qed.

Lemma rect_scatter_squares :
  rect (fun j k => fmul (gram Xc j k) (gram Xc j k)) 0 D 0 D
  = Fin (scatter_squares X).
Proof.
  unfold rect, scatter_squares. apply sum_range_Fin. intros j Hj.
  apply sum_range_Fin. intros k Hk.
  unfold Xc. rewrite (gram_to_matrix n (centred X)) by lia. reflexivity.
Qed.

Lemma emp_cov_trace_exact :
  map (fun s => fdiv s (of_nat n)) (np_sum_axis (square Xc) axis0)
  = map (fun j => Fin (biased_covariance X j j)) (seq 0 D).
Proof.
  unfold np_sum_axis. rewrite map_map.
  change (shape1 (square Xc)) with D. change (shape0 (square Xc)) with n.
  apply map_seq_ext. intros j Hj.
  rewrite (@sum_range_Fin 0 n _ (fun i => centred X i j * centred X i j)%Qc).
  - apply fdiv_of_nat, Hn.
  - intros i Hi. unfold Xc. rewrite square_to_matrix.
    apply getitem_to_matrix; lia.
Qed.

End ShrinkageExact.

Lemma fadd_Fin (a b : Qc) : fadd (Fin a) (Fin b) = Fin (a + b).
Proof. reflexivity. Qed.

Lemma fsub_Fin (a b : Qc) : fsub (Fin a) (Fin b) = Fin (a - b).
Proof. reflexivity. Qed.

Lemma fmul_Fin (a b : Qc) : fmul (Fin a) (Fin b) = Fin (a * b).
Proof. reflexivity. Qed.

Lemma Qc_mult_neq0 (a b : Qc) : a <> 0%Qc -> b <> 0%Qc -> (a * b)%Qc <> 0%Qc.
Proof.
  intros Ha Hb H. destruct (Qcmult_integral _ _ H); contradiction.
Qed.

Ltac nonzero := repeat apply Qc_mult_neq0; apply qnat_neq0; nia.

Lemma ledoit_wolf_shrinkage_exact (X : matrix) (b : Z) :
  1 <= shape0 X -> 2 <= shape1 X -> (1 <= b)%Z ->
  ledoit_wolf_shrinkage (to_matrix (shape0 X) (shape1 X) (centred X)) b
  = Ok (Fin (shrinkage X)).
Proof.
  intros Hn HD Hb.
  set (n := shape0 X). set (D := shape1 X).
  set (Xc := to_matrix n D (centred X)).
  unfold ledoit_wolf_shrinkage.
  rewrite check_array_pass
    by (try (intros _; apply all_finite_to_matrix); simpl; lia).
  cbn [bind_result].
  change (shape1 Xc) with D. change (shape0 Xc) with n.
  destruct (Nat.eqb_spec D 1) as [E|_]; [unfold D in E; lia|].
  cbv zeta.
  set (bs := Z.to_nat b).
  set (ns := Z.to_nat (Z.quot (Z.of_nat D) b)).
  assert (Hfit : bs * ns <= shape1 Xc) by (apply block_count_fits, Hb).
  destruct (blocked_sums_total Xc (square Xc) bs ns eq_refl Hfit)
    as [Hbeta Hdelta].
  destruct (blocked_sums Xc (square Xc) bs ns) as [b0 d0].
  cbn [fst snd] in Hbeta, Hdelta.
  rewrite Hbeta, Hdelta.
  change (shape1 Xc) with D.
  unfold Xc, n, D.
  rewrite rect_fourth_moments, rect_scatter_squares; try lia.
  rewrite (emp_cov_trace_exact X) by lia.
  rewrite (fsum_Fin 0 (shape1 X) (fun j => biased_covariance X j j)).
  fold (trace X).
  rewrite !fdiv_of_nat by nia.
  rewrite !of_nat_Fin. unfold one, two, of_Z.
  rewrite !fmul_Fin.
  rewrite (@fdiv_Fin (scatter_squares X)) by nonzero.
  rewrite (@fdiv_Fin 1%Qc) by nonzero.
  rewrite !fsub_Fin, !fmul_Fin, !fadd_Fin.
  rewrite (@fdiv_Fin _ (qnat (shape1 X))) by nonzero.
  rewrite shrinkage_select; [reflexivity|].
  apply (beta_nonneg X); lia.
Qed.

(* ----------------------------------------------------------------- *)
(** ** [_ledoit_wolf] and [fit] on a valid matrix *)

Lemma qsum_range_1 (f : nat -> Qc) : qsum_range 0 1 f = f 0.
Proof. unfold qsum_range, big_range, big. simpl. ring. Qed.

Lemma empirical_covariance_exact (X : matrix) :
  1 <= shape0 X -> 1 <= shape1 X ->
  empirical_covariance (to_matrix (shape0 X) (shape1 X) (centred X))
  = Ok (to_matrix (shape1 X) (shape1 X) (biased_covariance X)).
Proof.
  intros Hn HD. unfold empirical_covariance.
  rewrite check_array_pass by (try discriminate; simpl; lia).
  cbn [bind_result]. f_equal. unfold divide, to_matrix at 3.
  change (shape0 (dot ?a ?b)) with (shape0 a).
  change (shape1 (dot ?a ?b)) with (shape1 b).
  apply tabulate_ext. intros j k Hj Hk.
  cbn [shape0 shape1 transpose to_matrix tabulate] in Hj, Hk.
  unfold dot. rewrite getitem_tabulate by assumption.
  rewrite (@sum_range_Fin 0 _ _ (fun i => centred X i j * centred X i k)%Qc).
  - apply fdiv_of_nat. simpl. exact Hn.
  - intros i Hi. cbn [shape0 shape1 transpose to_matrix tabulate] in Hi.
    rewrite getitem_transpose by (simpl; lia).
    rewrite !getitem_to_matrix by lia. reflexivity.
Qed.

Lemma np_trace_exact (D : nat) (c : nat -> nat -> Qc) :
  np_trace (to_matrix D D c) = Fin (qsum_range 0 D (fun j => c j j)).
Proof.
  unfold np_trace. cbn [shape0 shape1 to_matrix tabulate].
  rewrite Nat.min_id. apply sum_range_Fin. intros j Hj.
  apply getitem_to_matrix; lia.
Qed.

Lemma shrunk_single_feature (X : matrix) :
  1 <= shape0 X -> shape1 X = 1 ->
  np_mean_all (square (to_matrix (shape0 X) 1 (centred X)))
  = Fin (shrunk_covariance X 0 0).
Proof.
  intros Hn HD. unfold np_mean_all, np_sum.
  rewrite square_to_matrix. cbn [shape0 shape1 to_matrix tabulate].
  rewrite (@sum_range_Fin 0 (shape0 X) _
             (fun i => centred X i 0 * centred X i 0)%Qc).
  - rewrite fdiv_of_nat by lia. f_equal.
    unfold shrunk_covariance, mu, trace, biased_covariance, scatter.
    rewrite HD, qsum_range_1, Nat.mul_1_r, qnat_1. cbn [Nat.eqb].
    field. split; [apply qnat_neq0; lia | exact Q_apart_0_1].
  - intros i Hi.
    rewrite (@sum_range_Fin 0 1 _ (fun j => centred X i j * centred X i j)%Qc).
    + rewrite qsum_range_1. reflexivity.
    + intros j Hj.
      rewrite getitem_to_matrix by lia. reflexivity.
Qed.

Lemma ledoit_wolf_exact (X : matrix) (b : Z) :
  1 <= shape0 X -> 1 <= shape1 X -> (1 <= b)%Z ->
  exists s,
    ledoit_wolf (to_matrix (shape0 X) (shape1 X) (centred X)) b
    = Ok (to_matrix (shape1 X) (shape1 X) (shrunk_covariance X), s)
    /\ (shape1 X <> 1 -> s = Fin (shrinkage X)).
Proof.
  intros Hn HD Hb. unfold ledoit_wolf.
  change (shape1 (to_matrix (shape0 X) (shape1 X) (centred X)))
    with (shape1 X).
  destruct (Nat.eqb_spec (shape1 X) 1) as [E|E].
  - exists zero. split; [|contradiction].
    rewrite E. rewrite (shrunk_single_feature X Hn E).
    reflexivity.
  - exists (Fin (shrinkage X)). split; [|reflexivity].
    rewrite ledoit_wolf_shrinkage_exact by lia. cbn [bind_result].
    rewrite empirical_covariance_exact by lia. cbn [bind_result].
    rewrite np_trace_exact. fold (trace X).
    rewrite fdiv_of_nat by lia. fold (mu X).
    do 2 f_equal.
    unfold add_to_diagonal, scale, to_matrix at 3.
    cbn [shape0 shape1 to_matrix tabulate].
    apply tabulate_ext. intros j k Hj Hk.
    fold (to_matrix (shape1 X) (shape1 X) (biased_covariance X)).
    fold (tabulate (shape1 X) (shape1 X)
            (fun i j => fmul (getitem (to_matrix (shape1 X) (shape1 X)
                                         (biased_covariance X)) i j)
                             (fsub one (Fin (shrinkage X))))).
    rewrite getitem_tabulate by assumption.
    rewrite getitem_to_matrix by assumption.
    unfold shrunk_covariance, one.
    destruct (j =? k); cbn [fsub fmul fadd fneg]; f_equal; ring.
Qed.

(** On a valid matrix [fit] succeeds, and stores the average of the rows
    and the shrunk covariance of the exact formulas. *)
Lemma fit_exact (X : matrix) (m : LedoitWolf) :
  valid X -> (1 <= block_size m)%Z -> assume_centered m = false ->
  exists m',
    fit X m = (Ok m', m')
    /\ location_ m' = Some (row_average X)
    /\ covariance_ m'
       = Some (to_matrix (shape1 X) (shape1 X) (shrunk_covariance X))
    /\ (shape1 X <> 1 -> shrinkage_ m' = Some (Fin (shrinkage X))).
Proof.
  intros (Hw & Hf & Hn & HD) Hb Ha. rewrite fit_unfold.
  destruct (Z.ltb_spec (block_size m) 1) as [|_]; [lia|].
  rewrite check_array_pass by auto. cbv zeta. rewrite Ha.
  rewrite np_mean_axis0_row_average, (sub_row_exact Hw Hf Hn).
  destruct (ledoit_wolf_exact X Hn HD Hb) as (s & -> & Hs). cbn [fst snd].
  rewrite check_array_pass
    by (try (intros _; apply all_finite_to_matrix); simpl; lia).
  eexists. split; [reflexivity|]. split; [reflexivity|].
  split; [reflexivity|]. intros H1. cbn. f_equal. apply Hs, H1.
Qed.

Lemma shrinkage_estimate_exact (X : matrix) (self : LeoditWolfEstimator.t) :
  valid X ->
  (1 <= block_size (LeoditWolfEstimator.model self))%Z ->
  assume_centered (LeoditWolfEstimator.model self) = false ->
  fst (LeoditWolfEstimator.estimate_parameters X self)
  = Ok (Arr1 (row_average X),
        Arr2 (to_matrix (shape1 X) (shape1 X) (shrunk_covariance X))).
Proof.
  intros Hv Hb Ha. unfold LeoditWolfEstimator.estimate_parameters.
  destruct (@fit_exact X (LeoditWolfEstimator.model self) Hv Hb Ha)
    as (m' & -> & -> & -> & _).
  reflexivity.
Qed.

(* ----------------------------------------------------------------- *)
(** ** Configuration of the shrinkage estimator (C5) *)

(** C5.  The shrinkage estimator's [block_size] defaults to 1000 and the
    scikit-learn model is built with [assume_centered=False]; on every
    valid embedding matrix and for every block size (at least 1, as
    scikit-learn requires) [estimate_parameters] returns the average of
    the rows, estimated from the data, together with the shrunk
    covariance [(1 - shrinkage) * S + shrinkage * mu * Id] of the exact
    formulas, in which no block size occurs. *)
Theorem shrinkage_estimator_block_size
  (features : matrix) (block_size : Z) :
  LeoditWolfEstimator.__init__ None = LeoditWolfEstimator.__init__ (Some 1000%Z)
  /\ assume_centered
       (LeoditWolfEstimator.model
          (LeoditWolfEstimator.__init__ (Some block_size))) = false
  /\ Sklearn.block_size
       (LeoditWolfEstimator.model
          (LeoditWolfEstimator.__init__ (Some block_size))) = block_size
  /\ (valid features -> (1 <= block_size)%Z ->
      fst (LeoditWolfEstimator.estimate_parameters features
             (LeoditWolfEstimator.__init__ (Some block_size)))
      = Ok (Arr1 (row_average features),
            Arr2 (to_matrix (shape1 features) (shape1 features)
                    (shrunk_covariance features)))).
Proof.
  split; [reflexivity|]. split; [reflexivity|]. split; [reflexivity|].
  intros Hv Hb. apply shrinkage_estimate_exact; [exact Hv| exact Hb|].
  reflexivity.
Qed.

Lemma shrinkage_estimator_block_size_witness :
  valid Examples.three_by_two /\ (1 <= 1)%Z /\
  fst (LeoditWolfEstimator.estimate_parameters Examples.three_by_two
         (LeoditWolfEstimator.__init__ (Some 1%Z)))
  = Ok (Arr1 (row_average Examples.three_by_two),
        Arr2 (to_matrix 2 2 (shrunk_covariance Examples.three_by_two))).
Proof.
  assert (Hv : valid Examples.three_by_two).
  { split; [reflexivity|]. split; [reflexivity|]. simpl. lia. }
  assert (Hb : (1 <= 1)%Z) by lia.
  split; [exact Hv|]. split; [exact Hb|].
  exact (proj2 (proj2 (proj2
           (shrinkage_estimator_block_size Examples.three_by_two 1)))
           Hv Hb).
Defined.

(* ----------------------------------------------------------------- *)
(** ** Quadratic forms *)



Lemma qform_ext (D : nat) (c d : nat -> nat -> Qc) (v : list Qc) :
  (forall j k, j < D -> k < D -> c j k = d j k) ->
  qform D c v = qform D d v.
Proof.
  intros H. unfold qform. apply qsum_range_ext. intros j Hj.
  apply qsum_range_ext. intros k Hk. rewrite H by lia. reflexivity.
Qed.








(* ----------------------------------------------------------------- *)
(** ** Symmetry and definiteness of the covariances (C6) *)

Lemma sample_covariance_exact (X : matrix) :
  well_formed X -> all_finite X = true -> 2 <= shape0 X ->
  sample_covariance X
  = to_matrix (shape1 X) (shape1 X) (unbiased_covariance X).
Proof.
  intros Hw Hf Hn. unfold sample_covariance, to_matrix.
  apply tabulate_ext. intros j k Hj Hk.
  rewrite (row_average_exact Hw Hf) by lia.
  rewrite (@sum_range_Fin 0 (shape0 X) _
             (fun i => centred X i j * centred X i k)%Qc).
  - apply fdiv_of_nat. lia.
  - intros i Hi.
    rewrite (nth_map_seq (fun j => Fin (mean X j)) 0 NaN Hj).
    rewrite (nth_map_seq (fun j => Fin (mean X j)) 0 NaN Hk).
    rewrite !(finite_getitem Hw Hf) by lia. reflexivity.
Qed.

Lemma as_matrix_squeeze (D : nat) (c : nat -> nat -> Qc) :
  1 <= D -> as_matrix (squeeze (to_matrix D D c)) = Some (to_matrix D D c).
Proof.
  intros HD. destruct D as [|[|D]]; [lia|reflexivity|].
  rewrite squeeze_matrix by (simpl; lia). reflexivity.
Qed.
















Lemma fst_estimate_MLE
  (np : release) (X : matrix) (self : MaxLikelihoodEstimator.t) :
  fst (estimate_parameters np X (MLE self))
  = fst (MaxLikelihoodEstimator.estimate_parameters np X self).
Proof. reflexivity. Qed.

Lemma fst_estimate_Shrinkage
  (np : release) (X : matrix) (self : LeoditWolfEstimator.t) :
  fst (estimate_parameters np X (Shrinkage self))
  = fst (LeoditWolfEstimator.estimate_parameters X self).
Proof.
  unfold estimate_parameters.
  destruct (LeoditWolfEstimator.estimate_parameters X self). reflexivity.
Qed.






(* ----------------------------------------------------------------- *)
(** ** Fewer vectors than dimensions leave a direction out *)







(* ----------------------------------------------------------------- *)
(** ** Conditioning: singular against positive definite (C7) *)

Lemma qsum_range_const (n : nat) (a : Qc) :
  qsum_range 0 n (fun _ => a) = (qnat n * a)%Qc.
Proof.
  induction n as [|n IH].
  - rewrite qsum_range_0, qnat_0. ring.
  - rewrite qsum_range_last, IH, qnat_S. ring.
Qed.






















(** The shrinkage intensity of the three-by-three example is positive:
    the premise of positive definiteness is met on real data. *)
Example three_by_three_shrinkage_positive :
  (0 < shrinkage Examples.three_by_three)%Qc.
Proof. apply Qclt_alt. vm_compute. reflexivity. Qed.

(* ================================================================= *)
(** * Part III: further properties of the code *)
(* ================================================================= *)

(* ----------------------------------------------------------------- *)
(** ** [_abc_filter] *)

Section AbcFilterFacts.

Import AbcFilter.
Local Open Scope string_scope.

Lemma append_empty_r (s : string) : s ++ "" = s.
Proof. induction s as [|a s IH]; simpl; [reflexivity|]. rewrite IH. reflexivity. Qed.

Lemma append_assoc (s t u : string) : (s ++ t) ++ u = s ++ (t ++ u).
Proof. induction s as [|a s IH]; simpl; [reflexivity|]. rewrite IH. reflexivity. Qed.

(** A turn of the loop appends what the line contributes. *)
Lemma step_kept (music line : string) : step music line = music ++ kept line.
Proof.
  unfold kept, step.
  destruct (mem (substring 0 2 line) fields || String.eqb line newline
            || (prefix "%" line && negb (prefix "%%score" line))).
  - symmetry. apply append_empty_r.
  - destruct (contains percent line && negb (prefix "%%score" line));
      reflexivity.
Qed.

Lemma fold_step (lines : list string) (music : string) :
  fold_left step lines music = music ++ _abc_filter lines.
Proof.
  unfold _abc_filter. revert music.
  induction lines as [|line lines IH]; intros music; simpl.
  - symmetry. apply append_empty_r.
  - rewrite IH, (IH (step "" line)), (step_kept music line).
    fold (kept line). apply append_assoc.
Qed.

(** X1.  The filter works line by line: the music of two lists of lines
    put end to end is the music of the first followed by the music of the
    second. *)
Theorem abc_filter_app (lines1 lines2 : list string) :
  _abc_filter (lines1 ++ lines2)%list
  = _abc_filter lines1 ++ _abc_filter lines2.
Proof.
  unfold _abc_filter at 1. rewrite fold_left_app.
  fold (_abc_filter lines1). apply fold_step.
Qed.

Lemma kept_newline (line : string) :
  kept line = "" \/ ends_with_newline (kept line).
Proof.
  unfold kept, step.
  destruct (mem (substring 0 2 line) fields || String.eqb line newline
            || (prefix "%" line && negb (prefix "%%score" line)));
    [left; reflexivity|].
  right.
  destruct (contains percent line && negb (prefix "%%score" line));
    eexists; reflexivity.
Qed.

(** X2.  The music returned is empty or ends with a newline: every line
    kept is closed by one. *)
Theorem abc_filter_newline (lines : list string) :
  _abc_filter lines = "" \/ ends_with_newline (_abc_filter lines).
Proof.
  induction lines as [|line lines IH] using rev_ind; [left; reflexivity|].
  rewrite abc_filter_app.
  assert (E : _abc_filter [line] = kept line) by reflexivity.
  rewrite E. destruct (kept_newline line) as [K|(t & K)].
  - rewrite K, append_empty_r. exact IH.
  - right. exists (_abc_filter lines ++ t).
    rewrite K. symmetry. apply append_assoc.
Qed.

Lemma split_nonempty (c : Ascii.ascii) (s : string) : split c s <> [].
Proof.
  destruct s as [|a s]; simpl; [discriminate|].
  destruct (Ascii.eqb a c); [discriminate|].
  destruct (split c s); discriminate.
Qed.

Lemma split_app (c : Ascii.ascii) (pre post : string) :
  split c (pre ++ String c post) = (split c pre ++ split c post)%list.
Proof.
  induction pre as [|a pre IH]; simpl.
  - rewrite Ascii.eqb_refl. reflexivity.
  - destruct (Ascii.eqb a c).
    + rewrite IH. reflexivity.
    + rewrite IH. pose proof (split_nonempty c pre) as Hne.
      destruct (split c pre) as [|h t]; [contradiction|reflexivity].
Qed.

Lemma split_without (c : Ascii.ascii) (s : string) :
  contains c s = false -> split c s = [s].
Proof.
  induction s as [|a s IH]; simpl; intros H; [reflexivity|].
  apply orb_false_elim in H. destruct H as [Ha Hs].
  rewrite Ha, (IH Hs). reflexivity.
Qed.

(** Joining what was split gives the string back. *)
Lemma concat_split (c : Ascii.ascii) (s : string) :
  String.concat (String c "") (split c s) = s.
Proof.
  induction s as [|a s IH]; simpl; [reflexivity|].
  pose proof (split_nonempty c s) as Hne.
  destruct (Ascii.eqb_spec a c) as [->|_].
  - destruct (split c s) as [|h t]; [contradiction|].
    simpl in *. rewrite IH. reflexivity.
  - destruct (split c s) as [|h [|h' t]]; [contradiction| |].
    + simpl in *. rewrite IH. reflexivity.
    + simpl in *. rewrite IH. reflexivity.
Qed.

Lemma contains_app (c : Ascii.ascii) (pre post : string) :
  contains c (pre ++ String c post) = true.
Proof.
  induction pre as [|a pre IH]; simpl.
  - rewrite Ascii.eqb_refl. reflexivity.
  - rewrite IH. apply orb_true_r.
Qed.

Lemma prefix_score (line : string) :
  prefix "%" line = false -> prefix "%%score" line = false.
Proof.
  destruct line as [|a line]; cbn [prefix]; [reflexivity|].
  match goal with
  | |- context [Ascii.ascii_dec ?x a] => destruct (Ascii.ascii_dec x a)
  end; [|reflexivity].
  destruct line; discriminate.
Qed.

(** X3.  A kept line with a comment is cut at its last percent sign, and
    loses the character before that sign as well, whatever it is. *)
Theorem abc_filter_comment (pre post : string) :
  let line := pre ++ String percent post in
  contains percent post = false ->
  mem (substring 0 2 line) fields = false ->
  prefix "%" line = false ->
  kept line = drop_last pre ++ newline.
Proof.
  intros line Hpost Hfield Hpct. unfold kept, step. fold line.
  assert (Hc : contains percent line = true) by apply contains_app.
  assert (Hnl : String.eqb line newline = false).
  { apply String.eqb_neq. intros E. rewrite E in Hc. discriminate Hc. }
  rewrite Hfield, Hnl, Hpct, Hc, (prefix_score line Hpct). cbn [orb andb negb].
  unfold line. rewrite split_app, (split_without percent post Hpost).
  rewrite removelast_last.
  change "%" with (String percent ""). rewrite concat_split. reflexivity.
Qed.

Lemma abc_filter_comment_witness :
  kept ("abc%x" ++ newline) = "ab" ++ newline.
Proof.
  apply (abc_filter_comment "abc" ("x" ++ newline)); reflexivity.
Defined.

Lemma first_two (a b : Ascii.ascii) (rest : string) :
  substring 0 2 (String a (String b rest)) = String a (String b "").
Proof. destruct rest; reflexivity. Qed.



(** X5.  A line that starts with a percent sign is dropped, except one
    that starts with ["%%score"], which is copied whole, any later
    percent sign included. *)
Theorem abc_filter_percent (line rest : string) :
  (prefix "%" line = true -> prefix "%%score" line = false ->
   kept line = "")
  /\ kept ("%%score" ++ rest) = "%%score" ++ rest ++ newline.
Proof.
  split.
  - intros Hp Hs. unfold kept, step. rewrite Hp, Hs.
    cbn [andb negb]. rewrite orb_true_r. reflexivity.
  - unfold kept, step. cbn [append]. rewrite first_two. cbn.
    destruct rest; reflexivity.
Qed.

Lemma abc_filter_percent_witness :
  kept "%comment" = "".
Proof.
  apply (proj1 (abc_filter_percent "%comment" "")); reflexivity.
Defined.

End AbcFilterFacts.

(* ----------------------------------------------------------------- *)
(** ** Dispatch of the extractors on supported extensions *)

Section DatasetDispatchFacts.

Variables path dataset features : Type.
Variable get_dataset_ext : path -> result string.
Variable abc_load_dataset_async : path -> result dataset.
Variable midi_load_dataset_async : path -> result dataset.
Variable super_extract_features : dataset -> result features.

Let clamp :=
  Extractors.CLaMPExtractor_extract_features_from_path
    get_dataset_ext abc_load_dataset_async midi_load_dataset_async
    super_extract_features.
Let clamp2 :=
  Extractors.CLaMP2Extractor_extract_features_from_path
    get_dataset_ext abc_load_dataset_async midi_load_dataset_async
    super_extract_features.

(** X6.  On a dataset of [".abc"] files the two extractors do the same:
    one call of the ABC loader, then the feature extraction on what it
    returned; when the loader raises, its error is passed on and nothing
    is extracted. *)
Theorem abc_dataset_same_for_both
  (dataset_path : path) (tr : Extractors.trace path dataset) :
  get_dataset_ext dataset_path = Ok ".abc"%string ->
  clamp dataset_path tr = clamp2 dataset_path tr
  /\ clamp dataset_path tr
     = match abc_load_dataset_async dataset_path with
       | Ok data =>
           (super_extract_features data,
            tr ++ [@Extractors.Load path dataset Extractors.abc_dataloader dataset_path;
                   @Extractors.ExtractFeatures path dataset data])
       | Raise e =>
           (Raise e,
            tr ++ [@Extractors.Load path dataset Extractors.abc_dataloader dataset_path])
       end.
Proof.
  intros Hext.
  unfold clamp, clamp2, Extractors.CLaMPExtractor_extract_features_from_path,
    Extractors.CLaMP2Extractor_extract_features_from_path,
    Extractors.load_dataset_async, Extractors.extract_features,
    bind, lift, raise.
  rewrite Hext. cbn.
  destruct (abc_load_dataset_async dataset_path); cbn;
    rewrite <- ?app_assoc; split; reflexivity.
Qed.

(** X7.  On a dataset of [".mid"] or [".midi"] files [CLaMP2Extractor]
    calls the MIDI loader once, never the ABC loader, and extracts
    features only from what was loaded, while [CLaMPExtractor] refuses the
    same dataset with [ValueError]. *)
Theorem midi_dataset_only_clamp2
  (dataset_path : path) (extension : string)
  (tr : Extractors.trace path dataset) :
  get_dataset_ext dataset_path = Ok extension ->
  extension = ".mid"%string \/ extension = ".midi"%string ->
  clamp2 dataset_path tr
  = match midi_load_dataset_async dataset_path with
    | Ok data =>
        (super_extract_features data,
         tr ++ [@Extractors.Load path dataset Extractors.midi_dataloader dataset_path;
                @Extractors.ExtractFeatures path dataset data])
    | Raise e =>
        (Raise e,
         tr ++ [@Extractors.Load path dataset Extractors.midi_dataloader dataset_path])
    end
  /\ clamp dataset_path tr
     = (Raise (ValueError
                 ("CLAmP supports .abc files but got " ++ extension)%string),
        tr).
Proof.
  intros Hext Hmidi.
  unfold clamp, clamp2, Extractors.CLaMPExtractor_extract_features_from_path,
    Extractors.CLaMP2Extractor_extract_features_from_path,
    Extractors.load_dataset_async, Extractors.extract_features,
    bind, lift, raise.
  rewrite Hext. destruct Hmidi as [-> | ->]; cbn;
    destruct (midi_load_dataset_async dataset_path); cbn;
    rewrite <- ?app_assoc; split; reflexivity.
Qed.

End DatasetDispatchFacts.

Lemma abc_dataset_same_for_both_witness :
  Examples.ext_of "corpus/abc" = Ok ".abc"%string /\
  Extractors.CLaMPExtractor_extract_features_from_path
    Examples.ext_of (fun _ : string => Ok tt) (fun _ : string => Ok tt)
    (fun _ : unit => Ok tt) "corpus/abc"%string []
  = Extractors.CLaMP2Extractor_extract_features_from_path
      Examples.ext_of (fun _ : string => Ok tt) (fun _ : string => Ok tt)
      (fun _ : unit => Ok tt) "corpus/abc"%string [].
Proof.
  split; [reflexivity|].
  exact (proj1 (@abc_dataset_same_for_both
                  string unit unit Examples.ext_of
                  (fun _ => Ok tt) (fun _ => Ok tt) (fun _ => Ok tt)
                  "corpus/abc"%string [] eq_refl)).
Defined.

Lemma midi_dataset_only_clamp2_witness :
  Extractors.CLaMPExtractor_extract_features_from_path
    (fun _ : string => Ok ".mid"%string)
    (fun _ : string => Ok tt) (fun _ : string => Ok tt)
    (fun _ : unit => Ok tt) "corpus/midi"%string []
  = (Raise (ValueError "CLAmP supports .abc files but got .mid"), []).
Proof.
  exact (proj2 (@midi_dataset_only_clamp2
                  string unit unit (fun _ => Ok ".mid"%string)
                  (fun _ => Ok tt) (fun _ => Ok tt) (fun _ => Ok tt)
                  "corpus/midi"%string ".mid"%string [] eq_refl
                  (or_introl eq_refl))).
Defined.

Section FileDispatchFacts.

Variables path piece features : Type.
Variable suffix : path -> string.
Variable abc_load_file : path -> result piece.
Variable midi_load_file : path -> result piece.
Variable super_extract_feature : piece -> result features.

Let clamp :=
  SingleFile.CLaMPExtractor_extract_feature_from_path
    suffix abc_load_file midi_load_file super_extract_feature.
Let clamp2 :=
  SingleFile.CLaMP2Extractor_extract_feature_from_path
    suffix abc_load_file midi_load_file super_extract_feature.

(** X8.  For a single file whose suffix is not [".abc"],
    [CLaMPExtractor.extract_feature_from_path] raises [ValueError] (its
    message names "CLAmP 2"), and for a suffix that is none of [".mid"],
    [".midi"], [".abc"] so does [CLaMP2Extractor]; no loader has run by
    then.  The comparison is exact: [".ABC"] is refused. *)
Theorem unsupported_suffix_raises_before_loading
  (filepath : path) (tr : SingleFile.trace path piece) :
  (suffix filepath <> ".abc"%string ->
   clamp filepath tr
   = (Raise (ValueError
               ("CLAmP 2 supports .abc files but got " ++ suffix filepath)%string),
      tr))
  /\ (suffix filepath <> ".mid"%string ->
      suffix filepath <> ".midi"%string ->
      suffix filepath <> ".abc"%string ->
      clamp2 filepath tr
      = (Raise (ValueError
                  ("CLAmP 2 supports .mid, .midi and .abc files but got "
                     ++ suffix filepath)%string),
         tr)).
Proof.
  split.
  - intros Habc. apply String.eqb_neq in Habc.
    unfold clamp, SingleFile.CLaMPExtractor_extract_feature_from_path,
      bind, raise.
    rewrite Habc. reflexivity.
  - intros Hmid Hmidi Habc. apply String.eqb_neq in Hmid, Hmidi, Habc.
    unfold clamp2, SingleFile.CLaMP2Extractor_extract_feature_from_path,
      bind, raise.
    rewrite Hmid, Hmidi, Habc. reflexivity.
Qed.

(** X9.  For a single [".abc"] file both extractors load it with the ABC
    loader and extract the feature of the loaded piece; for a [".mid"] or
    [".midi"] file [CLaMP2Extractor] does so with the MIDI loader.  A
    loader's error is passed on and no feature is extracted. *)
Theorem supported_suffix_loads_once
  (filepath : path) (tr : SingleFile.trace path piece) :
  let run l load :=
    match load filepath with
    | Ok data =>
        (super_extract_feature data,
         tr ++ [@SingleFile.LoadFile path piece l filepath; @SingleFile.ExtractFeature path piece data])
    | Raise e => (Raise e, tr ++ [@SingleFile.LoadFile path piece l filepath])
    end in
  (suffix filepath = ".abc"%string ->
   clamp filepath tr = run Extractors.abc_dataloader abc_load_file
   /\ clamp2 filepath tr = run Extractors.abc_dataloader abc_load_file)
  /\ (suffix filepath = ".mid"%string \/ suffix filepath = ".midi"%string ->
      clamp2 filepath tr = run Extractors.midi_dataloader midi_load_file).
Proof.
  intros run. unfold run, clamp, clamp2,
    SingleFile.CLaMPExtractor_extract_feature_from_path,
    SingleFile.CLaMP2Extractor_extract_feature_from_path,
    SingleFile.load_file, SingleFile.extract_feature, bind, raise.
  split.
  - intros ->. cbn. destruct (abc_load_file filepath); cbn;
      rewrite <- ?app_assoc; split; reflexivity.
  - intros [-> | ->]; cbn; destruct (midi_load_file filepath); cbn;
      rewrite <- ?app_assoc; reflexivity.
Qed.

End FileDispatchFacts.

Lemma unsupported_suffix_witness :
  SingleFile.CLaMPExtractor_extract_feature_from_path
    (fun _ : string => ".ABC"%string)
    (fun _ : string => Ok tt) (fun _ : string => Ok tt)
    (fun _ : unit => Ok tt) "tune.ABC"%string []
  = (Raise (ValueError "CLAmP 2 supports .abc files but got .ABC"), []).
Proof.
  apply (proj1 (@unsupported_suffix_raises_before_loading
                  string unit unit (fun _ => ".ABC"%string)
                  (fun _ => Ok tt) (fun _ => Ok tt) (fun _ => Ok tt)
                  "tune.ABC"%string [])).
  discriminate.
Defined.

Lemma supported_suffix_witness :
  SingleFile.CLaMP2Extractor_extract_feature_from_path
    (fun _ : string => ".midi"%string)
    (fun _ : string => Raise (ValueError "unreadable"))
    (fun _ : string => Ok 7)
    (fun n : nat => Ok (n + 1)) "tune.midi"%string []
  = (Ok 8,
     [@SingleFile.LoadFile string nat Extractors.midi_dataloader
        "tune.midi"%string;
      @SingleFile.ExtractFeature string nat 7]).
Proof.
  apply (proj2 (@supported_suffix_loads_once
                  string nat nat (fun _ => ".midi"%string)
                  (fun _ => Raise (ValueError "unreadable"))
                  (fun _ => Ok 7) (fun n => Ok (n + 1))
                  "tune.midi"%string [])).
  right. reflexivity.
Defined.

(* ----------------------------------------------------------------- *)
(** ** The segments of [CLaMP2Extractor.extract_feature] *)

Section SegmentFacts.

Import Segments.

Variables PATCH_LENGTH PATCH_SIZE : nat.
Variable pad_token_id : Z.
Variable encode : string -> list (list Z).
Variable get_music_features : list (list Z) -> list float -> list float.

Local Abbreviation L := PATCH_LENGTH.
Local Abbreviation chunk input :=
  (fun k : nat => slice input (k * PATCH_LENGTH) (k * PATCH_LENGTH + PATCH_LENGTH)).

(** The number of turns of [range(0, n, L)]. *)
Lemma turns_spec (n : nat) :
  0 < L ->
  (n + L - 1) / L = n / L + (if n mod L =? 0 then 0 else 1).
Proof.
  intros HL.
  pose proof (Nat.div_mod_eq n L) as E.
  pose proof (Nat.mod_upper_bound n L ltac:(lia)) as Hr.
  destruct (n mod L =? 0) eqn:R.
  - apply Nat.eqb_eq in R. symmetry.
    apply Nat.div_unique with (r := L - 1); lia.
  - apply Nat.eqb_neq in R. symmetry.
    apply Nat.div_unique with (r := n mod L - 1); lia.
Qed.

(** For a non-empty input the loop takes [m + 1] turns, and the last one
    starts inside the input. *)
Lemma turns_bounds (n : nat) :
  0 < L -> 0 < n ->
  exists m, (n + L - 1) / L = S m /\ m * L < n <= m * L + L
            /\ n / L + (if n mod L =? 0 then 0 else 1) = S m.
Proof.
  intros HL Hn.
  pose proof (turns_spec n HL) as T.
  pose proof (Nat.div_mod_eq n L) as E.
  pose proof (Nat.mod_upper_bound n L ltac:(lia)) as Hr.
  destruct (n mod L =? 0) eqn:R.
  - apply Nat.eqb_eq in R.
    destruct (n / L) as [|m] eqn:Q; [lia|].
    exists m. split; [lia|]. split; [nia|lia].
  - apply Nat.eqb_neq in R.
    exists (n / L). split; [lia|]. split; [nia|lia].
Qed.

Lemma removelast_map_seq (A : Type) (f : nat -> A) (m : nat) :
  removelast (map f (seq 0 (S m))) = map f (seq 0 m).
Proof. rewrite seq_S, map_app. simpl. apply removelast_last. Qed.

Lemma firstn_add (A : Type) (a b : nat) (l : list A) :
  firstn a l ++ firstn b (skipn a l) = firstn (a + b) l.
Proof.
  revert l. induction a as [|a IH]; intros l; [reflexivity|].
  destruct l as [|x l]; simpl.
  - rewrite firstn_nil. reflexivity.
  - rewrite IH. reflexivity.
Qed.

Lemma chunk_length (input : list (list Z)) (k : nat) :
  k * L + L <= List.length input -> List.length (chunk input k) = L.
Proof.
  intros H. unfold slice. rewrite length_firstn, length_skipn. lia.
Qed.

(** The full chunks, one after the other, are the start of the input. *)
Lemma chunks_concat (input : list (list Z)) (m : nat) :
  concat (map (chunk input) (seq 0 m)) = firstn (m * L) input.
Proof.
  induction m as [|m IH]; [reflexivity|].
  rewrite seq_S, map_app, concat_app, IH. simpl.
  rewrite app_nil_r. unfold slice.
  replace (m * L + L - m * L) with L by lia.
  rewrite firstn_add. f_equal. lia.
Qed.

(** What the first loop and the assignment after it leave in
    [segment_list]. *)
Lemma segment_list_eq (input : list (list Z)) :
  0 < L -> input <> [] ->
  exists m,
    segment_list L input
    = Returned (map (chunk input) (seq 0 m) ++ [last_items L input])
    /\ m * L < List.length input <= m * L + L
    /\ feature_weights L (List.length input)
       = repeat L m ++ [List.length input - m * L].
Proof.
  intros HL Hne.
  assert (Hn : 0 < List.length input)
    by (destruct input; [congruence | simpl; lia]).
  destruct (turns_bounds HL Hn) as (m & Hm & Hb & Hw). exists m.
  split; [|split; [exact Hb|]].
  - unfold segment_list, range_step.
    replace (L =? 0) with false by (symmetry; apply Nat.eqb_neq; lia).
    rewrite Hm, map_map.
    replace (map (fun x => slice input (x * L) (x * L + L)) (seq 0 (S m)))
      with (map (chunk input) (seq 0 (S m))) by reflexivity.
    rewrite <- (removelast_map_seq (chunk input) m).
    destruct (map (chunk input) (seq 0 (S m))) eqn:E; [discriminate E|].
    reflexivity.
  - unfold feature_weights.
    pose proof (Nat.div_mod_eq (List.length input) L) as E.
    destruct (List.length input mod L =? 0) eqn:R.
    + apply Nat.eqb_eq in R.
      replace (List.length input / L) with (S m) by lia.
      replace (List.length input - m * L) with L by nia.
      rewrite <- repeat_cons. reflexivity.
    + replace (List.length input / L) with m by lia.
      f_equal. f_equal. nia.
Qed.

Lemma last_items_length (A : Type) (n : nat) (l : list A) :
  List.length (last_items n l) = Nat.min (List.length l) n.
Proof. unfold last_items. rewrite length_skipn. lia. Qed.

Lemma last_items_all (A : Type) (n : nat) (l : list A) :
  List.length l <= n -> last_items n l = l.
Proof.
  intros H. unfold last_items.
  replace (List.length l - n) with 0 by lia. reflexivity.
Qed.

Lemma skipn_skipn (A : Type) (a b : nat) (l : list A) :
  skipn a (skipn b l) = skipn (b + a) l.
Proof.
  revert l. induction b as [|b IH]; intros l; [reflexivity|].
  destruct l as [|x l]; simpl; [apply skipn_nil | apply IH].
Qed.

Lemma combine_app (A B : Type) (l1 l1' : list A) (l2 l2' : list B) :
  List.length l1 = List.length l2 ->
  combine (l1 ++ l1') (l2 ++ l2') = combine l1 l2 ++ combine l1' l2'.
Proof.
  revert l2. induction l1 as [|a l1 IH]; intros [|b l2] H;
    simpl in *; try discriminate; [reflexivity|].
  rewrite IH by congruence. reflexivity.
Qed.

Lemma for_each_map (A B : Type) (f : A -> outcome B) (g : A -> B)
  (l : list A) :
  (forall a, In a l -> f a = Returned (g a)) ->
  for_each f l = Returned (map g l).
Proof.
  induction l as [|a l IH]; intros H; [reflexivity|].
  simpl. rewrite (H a (or_introl eq_refl)). simpl.
  rewrite IH by (intros b Hb; apply H; right; exact Hb).
  reflexivity.
Qed.

Lemma segments_forall (input : list (list Z)) (m : nat)
  (P : list (list Z) -> Prop) :
  (forall k, k < m -> P (chunk input k)) -> P (last_items L input) ->
  Forall P (map (chunk input) (seq 0 m) ++ [last_items L input]).
Proof.
  intros Hc Hl. apply Forall_app. split.
  - apply Forall_forall. intros seg Hin.
    apply in_map_iff in Hin. destruct Hin as (k & <- & Hk).
    apply in_seq in Hk. apply Hc. lia.
  - constructor; [exact Hl | constructor].
Qed.

(** Every segment holds [min n L] patches. *)
Lemma segment_list_lengths (input : list (list Z)) :
  0 < L -> input <> [] ->
  exists segs,
    segment_list L input = Returned segs
    /\ Forall (fun seg => List.length seg = Nat.min (List.length input) L)
              segs.
Proof.
  intros HL Hne.
  destruct (segment_list_eq HL Hne) as (m & -> & Hb & _).
  eexists. split; [reflexivity|].
  apply segments_forall.
  - intros k Hk. rewrite chunk_length by nia. nia.
  - apply last_items_length.
Qed.

(** The second loop on the segments of a non-empty input. *)
Lemma for_each_model_inputs (input : list (list Z)) :
  0 < L -> input <> [] ->
  let n := Nat.min (List.length input) L in
  exists segs,
    segment_list L input = Returned segs
    /\ List.length segs = List.length (feature_weights L (List.length input))
    /\ segs <> []
    /\ Forall (fun seg => List.length seg = n) segs
    /\ for_each (model_inputs L PATCH_SIZE pad_token_id) segs
       = Returned
           (map (fun seg =>
                   (seg ++ repeat (repeat pad_token_id PATCH_SIZE) (L - n),
                    repeat one n ++ repeat zero (L - n))) segs).
Proof.
  intros HL Hne n.
  destruct (segment_list_eq HL Hne) as (m & Hs & Hb & Hw).
  assert (Hlen : Forall (fun seg => List.length seg = n)
                   (map (chunk input) (seq 0 m) ++ [last_items L input])).
  { apply segments_forall.
    - intros k Hk. rewrite chunk_length by nia. unfold n. nia.
    - apply last_items_length. }
  eexists. split; [exact Hs|]. split; [|split; [|split; [exact Hlen|]]].
  - rewrite Hw, !length_app, length_map, length_seq, repeat_length.
    reflexivity.
  - intros E. apply app_eq_nil in E. destruct E as [_ E]. discriminate E.
  - apply for_each_map. intros seg Hseg. unfold model_inputs.
    rewrite (proj1 (Forall_forall _ _) Hlen seg Hseg).
    replace (L <? n) with false
      by (symmetry; apply Nat.ltb_ge; unfold n; lia).
    reflexivity.
Qed.

Lemma map_nth_seq (A B : Type) (F : A -> B) (d : A) (l : list A) :
  map (fun j => F (nth j l d)) (seq 0 (List.length l)) = map F l.
Proof.
  induction l as [|a l IH]; [reflexivity|].
  simpl. rewrite <- seq_shift, map_map. simpl. rewrite IH. reflexivity.
Qed.

(** [weighted_mean] goes through when there are as many features as
    weights and the features have one width. *)
Lemma weighted_mean_returns (states : list (list float))
  (weights : list nat) (H : nat) :
  states <> [] -> Forall (fun h => List.length h = H) states ->
  List.length states = List.length weights ->
  exists row, weighted_mean states weights = Returned [row]
              /\ List.length row = H.
Proof.
  intros Hne Hw Hlen. unfold weighted_mean.
  destruct states as [|h0 states']; [congruence|].
  replace (forallb (fun h => List.length h =? List.length h0) (h0 :: states'))
    with true.
  - unfold broadcast_rows. rewrite Hlen, Nat.eqb_refl. simpl.
    eexists. split; [reflexivity|].
    rewrite !length_map, length_seq.
    inversion Hw; assumption.
  - symmetry. apply forallb_forall. intros h Hh. apply Nat.eqb_eq.
    rewrite Forall_forall in Hw.
    rewrite (Hw h Hh), (Hw h0 (or_introl eq_refl)). reflexivity.
Qed.

(** X10.  An input without patches stops [extract_feature] at the
    assignment to [segment_list[-1]], before the model is called: the
    first loop has appended nothing, and the assignment raises
    [IndexError]. *)
Theorem extract_feature_empty_input (data : string) :
  0 < PATCH_LENGTH -> encode data = [] ->
  extract_feature PATCH_LENGTH PATCH_SIZE pad_token_id encode
    get_music_features data
  = Raised (IndexError "list assignment index out of range").
Proof.
  intros HL E. unfold extract_feature. rewrite E.
  unfold segment_list, range_step.
  replace (L =? 0) with false by (symmetry; apply Nat.eqb_neq; lia).
  replace ((List.length (@nil (list Z)) + L - 1) / L) with 0
    by (symmetry; apply Nat.div_small; simpl; lia).
  reflexivity.
Qed.

(** X11.  For an input of [n >= 1] patches the segment list holds as many
    segments as there are feature weights, and every segment holds
    [min n PATCH_LENGTH] patches: a segment is shorter than
    [PATCH_LENGTH] only when the whole input is. *)
Theorem segments_match_weights (input : list (list Z)) :
  0 < PATCH_LENGTH -> input <> [] ->
  exists segs,
    segment_list PATCH_LENGTH input = Returned segs
    /\ List.length segs
       = List.length (feature_weights PATCH_LENGTH (List.length input))
    /\ Forall (fun seg => List.length seg
                          = Nat.min (List.length input) PATCH_LENGTH) segs.
Proof.
  intros HL Hne.
  destruct (segment_list_eq HL Hne) as (m & -> & Hb & ->).
  eexists. split; [reflexivity|]. split.
  - rewrite !length_app, length_map, length_seq, repeat_length.
    reflexivity.
  - apply segments_forall.
    + intros k Hk. rewrite chunk_length by nia. nia.
    + apply last_items_length.
Qed.

(** X12.  The feature weights add up to the number of patches, and each
    of them lies between [1] and [PATCH_LENGTH]. *)
Theorem feature_weights_sum (n : nat) :
  0 < PATCH_LENGTH ->
  sum_nat (feature_weights PATCH_LENGTH n) = n
  /\ Forall (fun w => 1 <= w <= PATCH_LENGTH)
            (feature_weights PATCH_LENGTH n).
Proof.
  intros HL.
  pose proof (Nat.div_mod_eq n L) as E.
  pose proof (Nat.mod_upper_bound n L ltac:(lia)) as Hr.
  assert (S : forall k, sum_nat (repeat L k) = L * k).
  { induction k as [|k IH]; simpl; [lia|]. rewrite IH. lia. }
  assert (F : forall k, Forall (fun w => 1 <= w <= L) (repeat L k)).
  { intros k. apply Forall_forall. intros w Hw.
    apply repeat_spec in Hw. lia. }
  unfold feature_weights. destruct (n mod L =? 0) eqn:R.
  - apply Nat.eqb_eq in R. split; [rewrite S; lia | apply F].
  - apply Nat.eqb_neq in R. split.
    + unfold sum_nat in *. rewrite fold_right_app. simpl.
      replace (n mod L + 0) with (n mod L) by lia.
      assert (G : forall k a, fold_right Nat.add a (repeat L k) = L * k + a).
      { induction k as [|k IH]; intros a; simpl; [lia|]. rewrite IH. lia. }
      rewrite G. lia.
    + apply Forall_app. split; [apply F|].
      constructor; [lia | constructor].
Qed.

(** X13.  Each weight counts the patches its segment adds to the segments
    before it: the last [w] patches of every segment, taken in order, are
    the input.  (The last segment is the last [PATCH_LENGTH] patches of
    the input, so it repeats patches of the segment before it; its weight
    counts only the new ones.) *)
Theorem weighted_segments_cover_input (input : list (list Z)) :
  0 < PATCH_LENGTH -> input <> [] ->
  exists segs,
    segment_list PATCH_LENGTH input = Returned segs
    /\ concat (map (fun p => last_items (snd p) (fst p))
                   (combine segs
                      (feature_weights PATCH_LENGTH (List.length input))))
       = input.
Proof.
  intros HL Hne.
  destruct (segment_list_eq HL Hne) as (m & -> & Hb & ->).
  eexists. split; [reflexivity|].
  rewrite combine_app
    by (rewrite length_map, length_seq, repeat_length; reflexivity).
  rewrite map_app, concat_app. simpl. rewrite app_nil_r.
  assert (C : forall k,
             k * L <= List.length input ->
             map (fun p => last_items (snd p) (fst p))
                 (combine (map (chunk input) (seq 0 k)) (repeat L k))
             = map (chunk input) (seq 0 k)).
  { induction k as [|k IH]; intros Hk; [reflexivity|].
    rewrite seq_S, map_app.
    replace (repeat L (S k)) with (repeat L k ++ [L])
      by (rewrite <- repeat_cons; reflexivity).
    rewrite combine_app
      by (rewrite length_map, length_seq, repeat_length; reflexivity).
    rewrite map_app, IH by lia. simpl. f_equal. f_equal.
    apply last_items_all. unfold slice.
    rewrite length_firstn. lia. }
  rewrite C, chunks_concat by lia.
  replace (last_items (List.length input - m * L) (last_items L input))
    with (skipn (m * L) input).
  - apply firstn_skipn.
  - unfold last_items at 1. rewrite last_items_length.
    unfold last_items. rewrite skipn_skipn. f_equal. lia.
Qed.

(** X14.  No segment makes the padding fail, and every call of the model
    gets exactly [PATCH_LENGTH] patches and [PATCH_LENGTH] mask entries.
    When the input holds at least [PATCH_LENGTH] patches nothing is
    padded: the model sees the segments themselves under a mask of
    ones. *)
Theorem model_inputs_have_patch_length (input : list (list Z)) :
  0 < PATCH_LENGTH -> input <> [] ->
  exists segs inputs,
    segment_list PATCH_LENGTH input = Returned segs
    /\ for_each (model_inputs PATCH_LENGTH PATCH_SIZE pad_token_id) segs
       = Returned inputs
    /\ List.length inputs = List.length segs
    /\ Forall (fun p => List.length (fst p) = PATCH_LENGTH
                        /\ List.length (snd p) = PATCH_LENGTH) inputs
    /\ (PATCH_LENGTH <= List.length input ->
        inputs = map (fun seg => (seg, repeat one PATCH_LENGTH)) segs).
Proof.
  intros HL Hne.
  destruct (for_each_model_inputs HL Hne) as (segs & Hs & _ & _ & Hlen & Hf).
  set (n := Nat.min (List.length input) L) in *.
  assert (Hin : forall seg, In seg segs -> List.length seg = n)
    by (apply Forall_forall; exact Hlen).
  eexists. eexists. split; [exact Hs|]. split; [exact Hf|].
  split; [|split].
  - apply length_map.
  - apply Forall_forall. intros p Hp. apply in_map_iff in Hp.
    destruct Hp as (seg & <- & Hseg). simpl.
    rewrite !length_app, !repeat_length, (Hin seg Hseg).
    unfold n. lia.
  - intros Hge. apply map_ext. intros seg.
    replace n with L by (unfold n; lia).
    rewrite Nat.sub_diag. simpl. rewrite !app_nil_r. reflexivity.
Qed.

(** X15.  With at least one patch, and a model whose features all have
    the hidden width [H], [extract_feature] raises nothing and returns
    one row of [H] numbers, whatever the number of segments: the
    features and the weights always pair up one to one. *)
Theorem extract_feature_returns_one_row (data : string) (H : nat) :
  0 < PATCH_LENGTH -> encode data <> [] ->
  (forall patches masks,
      List.length (get_music_features patches masks) = H) ->
  exists row,
    extract_feature PATCH_LENGTH PATCH_SIZE pad_token_id encode
      get_music_features data = Returned [row]
    /\ List.length row = H.
Proof.
  intros HL Hne Hw. unfold extract_feature.
  destruct (for_each_model_inputs HL Hne) as (segs & Hs & Hl & Hn & _ & Hf).
  rewrite Hs. cbn [and_then]. rewrite Hf. cbn [and_then].
  apply weighted_mean_returns.
  - destruct segs; [congruence | discriminate].
  - apply Forall_forall. intros h Hh. apply in_map_iff in Hh.
    destruct Hh as (p & <- & _). apply Hw.
  - rewrite !length_map. exact Hl.
Qed.

(** X16.  A piece of at most [PATCH_LENGTH] patches is one segment: the
    model is called once, on the piece padded to [PATCH_LENGTH] patches
    under a mask that is [1] on the piece and [0] on the padding, and
    when the feature it returns is finite that feature is the result
    (in exact arithmetic the weight cancels). *)
Theorem extract_feature_single_segment (data : string) (h : list Qc) :
  let input := encode data in
  let n := List.length input in
  0 < n <= PATCH_LENGTH ->
  get_music_features
    (input ++ repeat (repeat pad_token_id PATCH_SIZE) (PATCH_LENGTH - n))
    (repeat one n ++ repeat zero (PATCH_LENGTH - n)) = map Fin h ->
  extract_feature PATCH_LENGTH PATCH_SIZE pad_token_id encode
    get_music_features data = Returned [map Fin h].
Proof.
  intros input n Hn Hg.
  assert (HL : 0 < L) by lia.
  assert (Hne : input <> [])
    by (intros E; unfold n in Hn; rewrite E in Hn; simpl in Hn; lia).
  unfold extract_feature. fold input.
  destruct (segment_list_eq HL Hne) as (m & -> & Hb & ->).
  fold n in Hb |- *.
  assert (m = 0) by nia. subst m.
  rewrite (@last_items_all _ L input) by (fold n; lia).
  simpl. unfold model_inputs. fold n.
  replace (L <? n) with false by (symmetry; apply Nat.ltb_ge; lia).
  simpl. rewrite Hg.
  unfold weighted_mean, broadcast_rows. simpl.
  rewrite Nat.eqb_refl. simpl.
  rewrite Nat.sub_0_r, Nat.add_0_r, !map_map.
  f_equal. f_equal.
  rewrite length_map.
  rewrite <- (length_map (fun x : Qc => fmul (Fin x) (of_nat n)) h).
  rewrite (map_nth_seq (fun x => fdiv (fadd x zero) (of_nat n)) NaN
             (map (fun x : Qc => fmul (Fin x) (of_nat n)) h)).
  rewrite map_map. apply map_ext. intros q.
  rewrite of_nat_Fin. simpl fmul. simpl fadd.
  rewrite fdiv_Fin by (apply qnat_neq0; lia).
  f_equal. field. apply qnat_neq0. lia.
Qed.

End SegmentFacts.

Lemma extract_feature_empty_input_witness :
  Segments.extract_feature 2 1 0%Z (fun _ : string => [])
    (fun _ _ => [one]) "X:1"%string
  = Segments.Raised
      (Segments.IndexError "list assignment index out of range").
Proof.
  apply (@extract_feature_empty_input 2 1 0%Z (fun _ => [])
           (fun _ _ => [one]) "X:1"%string); [lia | reflexivity].
Defined.

Lemma segments_match_weights_witness :
  exists segs,
    Segments.segment_list 2 [[1%Z]; [2%Z]; [3%Z]] = Segments.Returned segs
    /\ List.length segs = List.length (Segments.feature_weights 2 3)
    /\ Forall (fun seg => List.length seg = 2) segs.
Proof.
  apply (@segments_match_weights 2 [[1%Z]; [2%Z]; [3%Z]]);
    [lia | discriminate].
Defined.

Lemma feature_weights_sum_witness :
  Segments.sum_nat (Segments.feature_weights 2 3) = 3
  /\ Forall (fun w => 1 <= w <= 2) (Segments.feature_weights 2 3).
Proof. apply (@feature_weights_sum 2 3). lia. Defined.

Lemma weighted_segments_cover_input_witness :
  exists segs,
    Segments.segment_list 2 [[1%Z]; [2%Z]; [3%Z]] = Segments.Returned segs
    /\ concat (map (fun p => Segments.last_items (snd p) (fst p))
                   (combine segs (Segments.feature_weights 2 3)))
       = [[1%Z]; [2%Z]; [3%Z]].
Proof.
  apply (@weighted_segments_cover_input 2 [[1%Z]; [2%Z]; [3%Z]]);
    [lia | discriminate].
Defined.

Lemma model_inputs_have_patch_length_witness :
  exists segs inputs,
    Segments.segment_list 2 [[1%Z]; [2%Z]; [3%Z]] = Segments.Returned segs
    /\ Segments.for_each (Segments.model_inputs 2 1 0%Z) segs
       = Segments.Returned inputs
    /\ List.length inputs = List.length segs
    /\ Forall (fun p => List.length (fst p) = 2
                        /\ List.length (snd p) = 2) inputs
    /\ (2 <= 3 ->
        inputs = map (fun seg => (seg, repeat one 2)) segs).
Proof.
  apply (@model_inputs_have_patch_length 2 1 0%Z [[1%Z]; [2%Z]; [3%Z]]);
    [lia | discriminate].
Defined.

Lemma extract_feature_returns_one_row_witness :
  exists row,
    Segments.extract_feature 2 1 0%Z
      (fun _ : string => [[1%Z]; [2%Z]; [3%Z]])
      (fun patches _ => [of_nat (List.length patches); one]) "X:1"%string
    = Segments.Returned [row]
    /\ List.length row = 2.
Proof.
  apply (@extract_feature_returns_one_row 2 1 0%Z
           (fun _ => [[1%Z]; [2%Z]; [3%Z]])
           (fun patches _ => [of_nat (List.length patches); one])
           "X:1"%string 2); [lia | discriminate | reflexivity].
Defined.

Lemma extract_feature_single_segment_witness :
  Segments.extract_feature 2 1 0%Z (fun _ : string => [[5%Z]])
    (fun _ masks => masks) "X:1"%string
  = Segments.Returned [[one; zero]].
Proof.
  apply (@extract_feature_single_segment 2 1 0%Z (fun _ => [[5%Z]])
           (fun _ masks => masks) "X:1"%string [1%Qc; 0%Qc]);
    [simpl; lia | reflexivity].
Defined.

(* ----------------------------------------------------------------- *)
(** ** Further facts about the two estimators *)

Section EstimatorFacts.

Import Exact.

(** A [NaN] among the terms makes the sum [NaN]. *)
Lemma fsum_NaN (l : list float) : In NaN l -> fsum l = NaN.
Proof.
  unfold fsum, big. induction l as [|a l IH]; intros H; [destruct H|].
  simpl. destruct H as [-> | H]; [reflexivity|].
  rewrite (IH H). destruct a; reflexivity.
Qed.

Lemma sum_range_NaN (lo n : nat) (f : nat -> float) (i : nat) :
  lo <= i < lo + n -> f i = NaN -> sum_range lo n f = NaN.
Proof.
  intros Hi E. unfold sum_range, big_range. apply fsum_NaN.
  rewrite <- E. apply in_map, in_seq, Hi.
Qed.

Lemma fmul_NaN_l (a : float) : fmul NaN a = NaN.
Proof. reflexivity. Qed.

Lemma fmul_NaN_r (a : float) : fmul a NaN = NaN.
Proof. destruct a; reflexivity. Qed.

Lemma fsub_NaN_r (a : float) : fsub a NaN = NaN.
Proof. destruct a; reflexivity. Qed.

(** X17.  A block size below 1 is accepted by the constructor and
    rejected by the first estimate: whatever the matrix,
    [estimate_parameters] raises scikit-learn's [InvalidParameterError]
    before the input is looked at, and the estimator is as it was. *)
Theorem invalid_block_size_raises (features : matrix) (block_size : Z) :
  (block_size < 1)%Z ->
  LeoditWolfEstimator.estimate_parameters features
    (LeoditWolfEstimator.__init__ (Some block_size))
  = (Raise (InvalidParameterError "block_size must be an int in [1, inf)"),
     LeoditWolfEstimator.__init__ (Some block_size)).
Proof.
  intros Hb. unfold LeoditWolfEstimator.estimate_parameters.
  rewrite fit_unfold.
  cbn [LeoditWolfEstimator.__init__ LeoditWolfEstimator.model
       LedoitWolf_init Sklearn.block_size].
  destruct (Z.ltb_spec block_size 1) as [_|H]; [reflexivity | lia].
Qed.

(** X18.  Without rows [MaxLikelihoodEstimator] raises nothing: for a
    matrix of shape [(0, D)], [D >= 2], the mean is [D] times [NaN]
    and the covariance is the [D x D] matrix of [NaN], under either
    NumPy release. *)
Theorem mle_no_rows
  (np : release) (features : matrix) (self : MaxLikelihoodEstimator.t) :
  shape0 features = 0 -> 2 <= shape1 features ->
  let D := shape1 features in
  MaxLikelihoodEstimator.estimate_parameters np features self
  = (Ok (Arr1 (repeat NaN D), Arr2 (tabulate D D (fun _ _ => NaN))), self).
Proof.
  intros H0 HD D.
  unfold MaxLikelihoodEstimator.estimate_parameters, ret.
  rewrite np_mean_axis0_row_average.
  assert (Hm : row_average features = repeat NaN D).
  { unfold row_average. rewrite H0.
    replace (repeat NaN D) with (map (fun _ : nat => NaN) (seq 0 D))
      by (rewrite map_const, length_seq; reflexivity).
    apply map_ext. intros j. reflexivity. }
  rewrite Hm. f_equal. f_equal. f_equal.
  unfold np_cov.
  replace (transposes np features) with true
    by (destruct np; simpl; [rewrite H0|]; reflexivity).
  cbn [negb andb].
  change (shape0 (transpose features)) with (shape1 features).
  change (shape1 (transpose features)) with (shape0 features).
  destruct (Nat.eqb_spec (shape1 features) 0) as [E|_]; [lia|].
  rewrite H0. cbn [Z.of_nat Z.sub Z.leb Z.compare Z.add Z.opp].
  rewrite squeeze_matrix by (simpl; lia).
  f_equal. unfold scale.
  change (shape0 (dot ?a ?b)) with (shape0 a).
  change (shape1 (dot ?a ?b)) with (shape1 b).
  cbn [shape0 shape1 sub_column transpose tabulate].
  apply tabulate_ext. intros j k Hj Hk.
  rewrite centred_dot by assumption.
  rewrite H0. reflexivity.
Qed.

(** X19.  [MaxLikelihoodEstimator] does not reject a [NaN]: with at least
    two rows and two columns, a [NaN] anywhere in column [j] makes entry
    [j] of the mean [NaN], and row [j] and column [j] of the covariance
    [NaN], and no error is raised. *)
Theorem mle_nan_propagates
  (np : release) (features : matrix) (self : MaxLikelihoodEstimator.t)
  (i j : nat) :
  2 <= shape0 features -> 2 <= shape1 features ->
  i < shape0 features -> j < shape1 features ->
  getitem features i j = NaN ->
  exists mean cov,
    MaxLikelihoodEstimator.estimate_parameters np features self
    = (Ok (Arr1 mean, Arr2 cov), self)
    /\ nth j mean zero = NaN
    /\ forall k, k < shape1 features ->
                 getitem cov j k = NaN /\ getitem cov k j = NaN.
Proof.
  intros Hn HD Hi Hj E.
  unfold MaxLikelihoodEstimator.estimate_parameters, ret.
  rewrite np_mean_axis0_row_average.
  rewrite (np_cov_sample_covariance np features Hn).
  rewrite squeeze_matrix by (simpl; lia).
  assert (Hm : forall d, nth j (row_average features) d = NaN).
  { intros d. unfold row_average.
    rewrite (nth_map_seq _ 0 d Hj). simpl.
    rewrite (@sum_range_NaN 0 (shape0 features) _ i) by (lia || exact E).
    reflexivity. }
  eexists. eexists. split; [reflexivity|]. split; [apply Hm|].
  intros k Hk. unfold sample_covariance.
  rewrite !getitem_tabulate by assumption.
  split.
  - rewrite (@sum_range_NaN 0 (shape0 features) _ 0); [reflexivity|lia|].
    rewrite Hm, fsub_NaN_r. reflexivity.
  - rewrite (@sum_range_NaN 0 (shape0 features) _ 0); [reflexivity|lia|].
    rewrite Hm, fsub_NaN_r. apply fmul_NaN_r.
Qed.



(** X21.  On a valid matrix of at least two rows the two estimators
    return the same mean, and shrinking moves variance between the
    entries without changing its total: the trace of the shrunk
    covariance is the trace of the maximum-likelihood one times
    [(n - 1) / n], the trace of the biased sample covariance. *)
Theorem shrinkage_keeps_total_variance
  (np : release) (features : matrix) (block_size : Z) :
  valid features -> 2 <= shape0 features -> (1 <= block_size)%Z ->
  let n := shape0 features in
  exists mean cov_mle cov_shrunk c_mle c_shrunk t,
    fst (estimate_parameters np features (MLE MaxLikelihoodEstimator.__init__))
    = Ok (mean, cov_mle)
    /\ fst (estimate_parameters np features
              (Shrinkage (LeoditWolfEstimator.__init__ (Some block_size))))
       = Ok (mean, cov_shrunk)
    /\ as_matrix cov_mle = Some c_mle
    /\ as_matrix cov_shrunk = Some c_shrunk
    /\ np_trace c_mle = Fin t
    /\ np_trace c_shrunk = Fin (qnat (n - 1) / qnat n * t)%Qc.
Proof.
  intros Hv Hn Hb n. pose proof Hv as (Hw & Hf & _ & HD).
  rewrite fst_estimate_MLE, fst_estimate_Shrinkage.
  unfold MaxLikelihoodEstimator.estimate_parameters, ret. cbn [fst].
  rewrite np_mean_axis0_row_average.
  rewrite (np_cov_sample_covariance np features Hn).
  rewrite (sample_covariance_exact Hw Hf Hn).
  rewrite shrinkage_estimate_exact by (assumption || reflexivity).
  do 6 eexists.
  split; [reflexivity|]. split; [reflexivity|].
  split; [apply as_matrix_squeeze, HD|]. split; [reflexivity|].
  split; [apply np_trace_exact|].
  rewrite np_trace_exact. f_equal.
  assert (Pn : qnat (shape0 features) <> 0%Qc) by (apply qnat_neq0; lia).
  assert (Pn1 : qnat (shape0 features - 1) <> 0%Qc)
    by (apply qnat_neq0; lia).
  assert (PD : qnat (shape1 features) <> 0%Qc) by (apply qnat_neq0; lia).
  rewrite (@qsum_range_ext 0 (shape1 features) _
             (fun j => biased_covariance features j j
                       * (1 - shrinkage features)
                       + shrinkage features * mu features)%Qc)
    by (intros j _; unfold shrunk_covariance; rewrite Nat.eqb_refl;
        reflexivity).
  rewrite qsum_range_plus, qsum_range_scale_r, qsum_range_const.
  fold (trace features). unfold mu.
  assert (T : trace features
              = (qnat (n - 1) / qnat n
                 * qsum_range 0 (shape1 features)
                     (fun j => unbiased_covariance features j j))%Qc).
  { unfold trace, biased_covariance, unbiased_covariance, Qcdiv.
    rewrite !qsum_range_scale_r. unfold n. field. split; assumption. }
  rewrite <- T. field. exact PD.
Qed.

End EstimatorFacts.

Lemma invalid_block_size_raises_witness :
  LeoditWolfEstimator.estimate_parameters Examples.three_by_two
    (LeoditWolfEstimator.__init__ (Some 0%Z))
  = (Raise (InvalidParameterError "block_size must be an int in [1, inf)"),
     LeoditWolfEstimator.__init__ (Some 0%Z)).
Proof. apply (invalid_block_size_raises Examples.three_by_two). lia. Defined.

Lemma mle_no_rows_witness :
  MaxLikelihoodEstimator.estimate_parameters from_2_2 Examples.no_rows
    MaxLikelihoodEstimator.self_
  = (Ok (Arr1 [NaN; NaN; NaN], Arr2 (tabulate 3 3 (fun _ _ => NaN))),
     MaxLikelihoodEstimator.self_).
Proof.
  apply (@mle_no_rows from_2_2 Examples.no_rows MaxLikelihoodEstimator.self_);
    [reflexivity | simpl; lia].
Defined.

Lemma mle_nan_propagates_witness :
  exists mean cov,
    MaxLikelihoodEstimator.estimate_parameters from_2_2 Examples.with_nan
      MaxLikelihoodEstimator.self_
    = (Ok (Arr1 mean, Arr2 cov), MaxLikelihoodEstimator.self_)
    /\ nth 1 mean zero = NaN
    /\ forall k, k < 2 -> getitem cov 1 k = NaN /\ getitem cov k 1 = NaN.
Proof.
  apply (@mle_nan_propagates from_2_2 Examples.with_nan
           MaxLikelihoodEstimator.self_ 0 1);
    [simpl; lia | simpl; lia | simpl; lia | simpl; lia | reflexivity].
Defined.


Lemma shrinkage_keeps_total_variance_witness :
  exists mean cov_mle cov_shrunk c_mle c_shrunk t,
    fst (estimate_parameters from_2_2 Examples.three_by_two
           (MLE MaxLikelihoodEstimator.__init__))
    = Ok (mean, cov_mle)
    /\ fst (estimate_parameters from_2_2 Examples.three_by_two
              (Shrinkage (LeoditWolfEstimator.__init__ (Some 1%Z))))
       = Ok (mean, cov_shrunk)
    /\ as_matrix cov_mle = Some c_mle
    /\ as_matrix cov_shrunk = Some c_shrunk
    /\ np_trace c_mle = Fin t
    /\ np_trace c_shrunk = Fin (qnat 2 / qnat 3 * t)%Qc.
Proof.
  apply (@shrinkage_keeps_total_variance from_2_2 Examples.three_by_two 1%Z).
  - split; [reflexivity|]. split; [reflexivity|]. simpl. lia.
  - simpl. lia.
  - lia.
Defined.
